(** * Orders service: resilient validation, event cache and order lifecycle

    A shallow embedding of the orders service of the repository
    ([services/orders-service/src/app.js], the Prisma-backed variant, and
    [services/orders-service/src/index.js], the in-memory variant) together
    with the properties its specification states about it.

    The handlers are JavaScript closures over process-wide mutable state
    ([userCache], [orders], [amqp]) that call out to collaborators (the
    circuit breaker, the AMQP channel, the Prisma client).  They are
    embedded as computations in a state-and-exception monad over a [world]
    record; what a collaborator answers is an input of the handler (an
    [env] record), and every call to a collaborator is appended to the
    world's [trace]. *)

From stdpp Require Import gmap strings list pretty sorting.
From Stdlib Require Import ZArith.

Set Warnings "-register-all".

(** ** JavaScript values *)

(** Values produced by [JSON.parse] and by [express.json()].  The handlers
    never compute with numbers: they test [typeof] and truthiness and carry
    the value through, so a number is kept as an integer. *)
Inductive json : Type :=
| JNull
| JBool (b : bool)
| JNum (n : Z)
| JStr (s : string)
| JArr (xs : list json)
| JObj (fields : list (string * json)).

(** Text on the wire or in a text column.  [JSON.parse] and
    [JSON.stringify] are built-ins: a text is either the serialisation of a
    JSON value, which parses back to that value, or text that [JSON.parse]
    rejects. *)
Inductive text : Type :=
| Serialized (j : json)
| Malformed (raw : string).

(** A thrown [Error]: Prisma errors carry a [code], every error a
    [message]. *)
Record js_error := JsError { err_code : option string; err_message : string }.

Inductive completion (A : Type) : Type :=
| Normal (a : A)
| Throw (e : js_error).
Arguments Normal {A} a.
Arguments Throw {A} e.

Definition SyntaxError : js_error := JsError None "Unexpected token in JSON".
Definition TypeError : js_error := JsError None "Cannot read properties of null".

Definition JSON_parse (t : text) : completion json :=
  match t with
  | Serialized j => Normal j
  | Malformed _ => Throw SyntaxError
  end.

Definition JSON_stringify (j : json) : text := Serialized j.

Fixpoint assoc (name : string) (fields : list (string * json)) : option json :=
  match fields with
  | [] => None
  | (k, v) :: rest => if String.eqb k name then Some v else assoc name rest
  end.

(** [v.name] for the property names the handlers read ([id], [userId],
    [items], [total]): reading a property of [null] throws, an object
    answers with its own property, and arrays, strings, numbers and
    booleans have no property of these names ([None] is [undefined]). *)
Definition get_prop (v : json) (name : string) : completion (option json) :=
  match v with
  | JNull => Throw TypeError
  | JObj fields => Normal (assoc name fields)
  | _ => Normal None
  end.

(** [!!v]. *)
Definition truthy (v : option json) : bool :=
  match v with
  | None => false
  | Some JNull => false
  | Some (JBool b) => b
  | Some (JNum n) => negb (n =? 0)%Z
  | Some (JStr s) => negb (String.eqb s "")
  | Some (JArr _) => true
  | Some (JObj _) => true
  end.

(** [Array.isArray(v)]. *)
Definition isArray (v : option json) : option (list json) :=
  match v with
  | Some (JArr xs) => Some xs
  | _ => None
  end.

(** [typeof v === 'number']. *)
Definition isNumber (v : option json) : option Z :=
  match v with
  | Some (JNum n) => Some n
  | _ => None
  end.

(** ** The [Map] behind [userCache] *)

(** Keys of a JavaScript [Map] are compared by SameValueZero: primitives by
    value, objects and arrays by reference.  The objects that reach the
    cache come out of [JSON.parse], so each one is a reference of its own;
    [KRef n] is the [n]-th such reference used as a key. *)
Inductive key : Type :=
| KUndef
| KNull
| KBool (b : bool)
| KNum (n : Z)
| KStr (s : string)
| KRef (n : nat).

#[global] Instance key_eq_dec : EqDecision key.
Proof. solve_decision. Defined.

Definition key_encode (k : key) : unit + (unit + (bool + (Z + (string + nat)))) :=
  match k with
  | KUndef => inl ()
  | KNull => inr (inl ())
  | KBool b => inr (inr (inl b))
  | KNum n => inr (inr (inr (inl n)))
  | KStr s => inr (inr (inr (inr (inl s))))
  | KRef n => inr (inr (inr (inr (inr n))))
  end.

Definition key_decode (x : unit + (unit + (bool + (Z + (string + nat))))) : key :=
  match x with
  | inl _ => KUndef
  | inr (inl _) => KNull
  | inr (inr (inl b)) => KBool b
  | inr (inr (inr (inl n))) => KNum n
  | inr (inr (inr (inr (inl s)))) => KStr s
  | inr (inr (inr (inr (inr n)))) => KRef n
  end.

#[global] Instance key_countable : Countable key :=
  inj_countable' key_encode key_decode
    (fun k => match k with
              | KUndef | KNull | KBool _ | KNum _ | KStr _ | KRef _ => eq_refl
              end).

(** The key a primitive value is, or [None] for an object or an array. *)
Definition prim_key (v : option json) : option key :=
  match v with
  | None => Some KUndef
  | Some JNull => Some KNull
  | Some (JBool b) => Some (KBool b)
  | Some (JNum n) => Some (KNum n)
  | Some (JStr s) => Some (KStr s)
  | Some (JArr _) => None
  | Some (JObj _) => None
  end.

(** ** The world *)

(** An AMQP delivery: [msg.content] and [msg.fields.routingKey]. *)
Record message := Message { content : text; routingKey : string }.

(** Calls to the collaborators, in the order they are made. *)
Inductive effect : Type :=
| Fire (userId : json)
| DbCreate (id : string) (ok : bool)
| DbUpdate (id : string) (ok : bool)
| Publish (exchange rk : string) (payload : text) (persistent : bool)
| Ack (m : message)
| Nack (m : message) (allUpTo requeue : bool).

(** The process-wide state the handlers close over.  [store] is the order
    store of the variant at hand (the [orders] map of index.js, the order
    table behind Prisma for app.js); [amqp] tells whether [amqp?.ch] is
    there; [refs] counts the object references used as cache keys. *)
Record world (Store : Type) : Type := World {
  userCache : gmap key json;
  refs : nat;
  amqp : bool;
  store : Store;
  trace : list effect
}.
Arguments World {Store} _ _ _ _ _.
Arguments userCache {Store} _.
Arguments refs {Store} _.
Arguments amqp {Store} _.
Arguments store {Store} _.
Arguments trace {Store} _.

(** Names the services take from the environment and from
    [common/events.js], which is not part of the sources at hand. *)
Record config := Config {
  EXCHANGE : string;
  ROUTING_KEY_USER_CREATED : string;
  ROUTING_KEY_USER_UPDATED : string;
  ORDER_CREATED : string;
  ORDER_CANCELLED : string;
  HTTP_TIMEOUT_MS : Z
}.

(** ** Computations *)

(** A computation reads and writes the world and ends normally or by a
    throw; the writes made before a throw stay. *)
Definition M (Store A : Type) : Type := world Store → completion A * world Store.

Section Monad.
Context {Store : Type}.

Definition ret {A} (a : A) : M Store A := fun w => (Normal a, w).

Definition throw {A} (e : js_error) : M Store A := fun w => (Throw e, w).

Definition bind {A B} (c : M Store A) (k : A → M Store B) : M Store B :=
  fun w =>
    match c w with
    | (Normal a, w') => k a w'
    | (Throw e, w') => (Throw e, w')
    end.

(** [try { c } catch (err) { h err }]. *)
Definition try_catch {A} (c : M Store A) (h : js_error → M Store A) : M Store A :=
  fun w =>
    match c w with
    | (Normal a, w') => (Normal a, w')
    | (Throw e, w') => h e w'
    end.

Definition lift {A} (c : completion A) : M Store A := fun w => (c, w).

Definition gets {A} (f : world Store → A) : M Store A := fun w => (Normal (f w), w).

Definition emit (e : effect) : M Store unit :=
  fun w => (Normal (), World (userCache w) (refs w) (amqp w) (store w) (trace w ++ [e])).

Definition put_store (s : Store) : M Store unit :=
  fun w => (Normal (), World (userCache w) (refs w) (amqp w) s (trace w)).

(** [userCache.set(k, v)]: a primitive key overwrites the entry of that
    value; an object is a fresh reference and opens an entry of its own. *)
Definition userCache_set (k : option json) (v : json) : M Store unit :=
  fun w =>
    match prim_key k with
    | Some pk =>
        (Normal (), World (<[pk := v]> (userCache w)) (refs w) (amqp w) (store w) (trace w))
    | None =>
        (Normal (),
         World (<[KRef (refs w) := v]> (userCache w)) (S (refs w)) (amqp w) (store w) (trace w))
    end.

(** [userCache.has(k)] for a value [k] that was just parsed from a request:
    an object is a reference the cache has never seen. *)
Definition userCache_has (k : option json) : M Store bool :=
  fun w =>
    match prim_key k with
    | Some pk => (Normal (bool_decide (is_Some (userCache w !! pk))), w)
    | None => (Normal false, w)
    end.

End Monad.

Notation "x <- c1 ;; c2" := (bind c1 (fun x => c2))
  (at level 100, c1 at next level, right associativity).
Notation "c1 ;; c2" := (bind c1 (fun _ => c2))
  (at level 100, right associativity).

(** ** The event consumer

    The callback given to [amqp.ch.consume] (app.js lines 52 to 68,
    index.js lines 43 to 60; the two are the same code). *)

Section Consumer.
Context {Store : Type} (cfg : config).

Definition consume (msg : option message) : M Store unit :=
  match msg with
  | None => ret ()
  | Some m =>
      try_catch
        (user <- lift (JSON_parse (content m)) ;;
         let eventType := routingKey m in
         (if bool_decide (eventType = ROUTING_KEY_USER_CREATED cfg
                          ∨ eventType = ROUTING_KEY_USER_UPDATED cfg)
          then id <- lift (get_prop user "id") ;; userCache_set id user
          else ret ()) ;;
         emit (Ack m))
        (fun err => emit (Nack m false false))
  end.

(** The world after the callback has run on each delivery in turn. *)
Definition deliver (msg : option message) (w : world Store) : world Store :=
  (consume msg w).2.

Definition deliver_all (msgs : list (option message)) (w : world Store) : world Store :=
  foldl (fun w m => deliver m w) w msgs.

End Consumer.

(** *** Registry-change events, as the specification speaks of them *)

Section RegistryEvents.
Context (cfg : config).

(** What a registry-change event carries: the routing key is user-created
    or user-updated and the payload is the JSON text of a user object whose
    [id] is a string. *)
Definition event_of (m : message) : option (string * json) :=
  if bool_decide (routingKey m = ROUTING_KEY_USER_CREATED cfg
                  ∨ routingKey m = ROUTING_KEY_USER_UPDATED cfg)
  then
    match content m with
    | Serialized (JObj fields) =>
        match assoc "id" fields with
        | Some (JStr uid) => Some (uid, JObj fields)
        | _ => None
        end
    | _ => None
    end
  else None.

Definition registry_event (m : message) : Prop := is_Some (event_of m).

(** The payload of the last event of the sequence that carries [uid]. *)
Fixpoint last_applied (uid : string) (events : list (string * json)) : option json :=
  match events with
  | [] => None
  | (u, p) :: rest =>
      match last_applied uid rest with
      | Some q => Some q
      | None => if String.eqb u uid then Some p else None
      end
  end.

(** [apply] of the specification's EventCache, folded over a sequence of
    events: each one overwrites the snapshot stored for its user. *)
Definition apply_events (events : list (string * json)) (cache : gmap key json)
  : gmap key json :=
  foldl (fun c ev => <[KStr ev.1 := ev.2]> c) cache events.

End RegistryEvents.

(** ** What both variants of the service share *)

Inductive status : Type := Created | Cancelled.

#[global] Instance status_eq_dec : EqDecision status.
Proof. solve_decision. Defined.

Definition status_json (s : status) : json :=
  match s with
  | Created => JStr "created"
  | Cancelled => JStr "cancelled"
  end.

(** How the promise of [breaker.fire] settles. *)
Inductive settled : Type :=
| Resolved
| Rejected (err : js_error).

(** What the collaborators answer during one request: how
    [breaker.fire(userId)] settles, what [nanoid(6)] returns, the ISO text
    of [new Date()], whether the database can be reached and whether
    [amqp.ch.publish] throws. *)
Record env := Env {
  fire_outcome : settled;
  nanoid : string;
  now : string;
  db_down : bool;
  publish_throws : bool
}.

Record response := Response { res_status : nat; res_body : json }.

(** [res.status(s).json({ error: msg })]. *)
Definition error_body (msg : string) : json := JObj [("error", JStr msg)].

(** The outcome of the validation step of order creation. *)
Inductive verdict : Type :=
| Admit
| Reject (code : nat) (reason : string).

Definition CIRCUIT_OPEN : string := "CIRCUIT_OPEN".

Definition user_unknown : string :=
  "users-service indisponível e usuário não encontrado no cache".

Section Shared.
Context {Store : Type} (cfg : config).

(** [await breaker.fire(userId)].  The breaker is the collaborator; the
    call is recorded and settles as the environment says. *)
Definition breaker_fire (e : env) (userId : json) : M Store unit :=
  emit (Fire userId) ;;
  match fire_outcome e with
  | Resolved => ret ()
  | Rejected err => throw err
  end.

(** The validation step of [app.post('/')] (app.js lines 188 to 197,
    index.js lines 163 to 178): the [return] inside the [catch] block is
    the [Reject] verdict, falling through the block is [Admit]. *)
Definition validate (e : env) (userId : json) : M Store verdict :=
  try_catch
    (breaker_fire e userId ;; ret Admit)
    (fun err =>
       hit <- userCache_has (Some userId) ;;
       if negb hit then
         let code := if String.eqb (err_message err) CIRCUIT_OPEN then 503 else 503 in
         ret (Reject code user_unknown)
       else ret Admit).

(** [const { userId, items, total } = req.body || {}] followed by the
    check of the three fields; [None] is the 400 branch. *)
Definition read_body (body : option json) : M Store (option (json * list json * Z)) :=
  let b := if truthy body then default (JObj []) body else JObj [] in
  userId <- lift (get_prop b "userId") ;;
  items <- lift (get_prop b "items") ;;
  total <- lift (get_prop b "total") ;;
  match userId, isArray items, isNumber total with
  | Some u, Some its, Some t =>
      if truthy (Some u) then ret (Some (u, its, t)) else ret None
  | _, _, _ => ret None
  end.

Definition bad_request : response :=
  Response 400 (error_body "userId, items[], total<number> são obrigatórios").

(** [amqp.ch.publish(EXCHANGE, rk, payload, { persistent: true })]. *)
Definition channel_publish (e : env) (rk : string) (payload : text) : M Store unit :=
  if publish_throws e then throw (JsError None "Channel closed")
  else emit (Publish (EXCHANGE cfg) rk payload true).

(** [try { if (amqp?.ch) { publish } } catch (err) { console.error }]. *)
Definition try_publish (e : env) (rk : string) (payload : text) : M Store unit :=
  try_catch
    (ch <- gets amqp ;;
     if ch : bool then channel_publish e rk payload else ret ())
    (fun err => ret ()).

Definition cancelled_event (orderId : string) : text :=
  JSON_stringify (JObj [("orderId", JStr orderId); ("status", JStr "cancelled")]).

End Shared.

(** ** app.js: orders behind Prisma *)

Module App.

(** The [data] given to [prisma.order.create]. *)
Record order_data := OrderData {
  d_id : string;
  d_userId : json;
  d_items : text;
  d_total : Z;
  d_status : status
}.

(** A row of the order table. *)
Record row := Row {
  r_id : string;
  r_userId : json;
  r_items : text;
  r_total : Z;
  r_status : status;
  r_createdAt : string;
  r_updatedAt : string
}.

Definition P2025 : js_error := JsError (Some "P2025") "Record to update not found".
Definition P2002 : js_error := JsError (Some "P2002") "Unique constraint failed".
Definition db_unreachable : js_error := JsError None "Can't reach database server".

(** Modelled from the spec: the persistence collaborator ([db.js] and the
    Prisma schema are not among the sources).  [saveOrder]: the row is
    stored as given, with both timestamps set to the current time; a
    duplicate key is a conflict; an unreachable database throws. *)
Definition prisma_order_create (e : env) (d : order_data) : M (gmap string row) row :=
  if db_down e then (emit (DbCreate (d_id d) false) ;; throw db_unreachable)
  else
    tbl <- gets store ;;
    match tbl !! d_id d with
    | Some _ => emit (DbCreate (d_id d) false) ;; throw P2002
    | None =>
        let r := Row (d_id d) (d_userId d) (d_items d) (d_total d) (d_status d) (now e) (now e) in
        put_store (<[d_id d := r]> tbl) ;;
        emit (DbCreate (d_id d) true) ;;
        ret r
    end.

(** Modelled from the spec: the persistence collaborator,
    [updateOrderStatus(id, status) -> Result<Order, NotFound>]: the row's
    status and last-modified time are overwritten; a missing row is the
    not-found error (Prisma's code P2025). *)
Definition prisma_order_update (e : env) (id : string) (st : status) (updatedAt : string)
  : M (gmap string row) row :=
  if db_down e then (emit (DbUpdate id false) ;; throw db_unreachable)
  else
    tbl <- gets store ;;
    match tbl !! id with
    | None => emit (DbUpdate id false) ;; throw P2025
    | Some r =>
        let r' := Row (r_id r) (r_userId r) (r_items r) (r_total r) st (r_createdAt r) updatedAt in
        put_store (<[id := r']> tbl) ;;
        emit (DbUpdate id true) ;;
        ret r'
    end.

(** [{ ...orderFromDb, items: JSON.parse(orderFromDb.items) }]. *)
Definition order_json (r : row) (items : json) : json :=
  JObj [("id", JStr (r_id r)); ("userId", r_userId r); ("items", items);
        ("total", JNum (r_total r)); ("status", status_json (r_status r));
        ("createdAt", JStr (r_createdAt r)); ("updatedAt", JStr (r_updatedAt r))].

Section Handlers.
Context (cfg : config).

(** The second half of [app.post('/')], app.js lines 199 to 233: the
    order is saved and then announced. *)
Definition create_order (e : env) (userId : json) (items : list json) (total : Z)
  : M (gmap string row) response :=
  let id := "o_" +:+ nanoid e in
  let orderData := OrderData id userId (JSON_stringify (JArr items)) total Created in
  try_catch
    (orderFromDb <- prisma_order_create e orderData ;;
     parsed <- lift (JSON_parse (r_items orderFromDb)) ;;
     let order := order_json orderFromDb parsed in
     try_publish cfg e (ORDER_CREATED cfg) (JSON_stringify order) ;;
     ret (Response 201 order))
    (fun err => ret (Response 500 (error_body "Failed to create order"))).

(** [app.post('/')], app.js lines 181 to 234. *)
Definition post_order (e : env) (body : option json) : M (gmap string row) response :=
  fields <- read_body body ;;
  match fields with
  | None => ret bad_request
  | Some (userId, items, total) =>
      v <- validate e userId ;;
      match v with
      | Reject code reason => ret (Response code (error_body reason))
      | Admit => create_order e userId items total
      end
  end.

(** [app.post('/orders/:id/cancel')], app.js lines 142 to 178. *)
Definition post_cancel (e : env) (orderId : string) : M (gmap string row) response :=
  try_catch
    (updatedOrderDb <- prisma_order_update e orderId Cancelled (now e) ;;
     parsed <- lift (JSON_parse (r_items updatedOrderDb)) ;;
     let updatedOrder := order_json updatedOrderDb parsed in
     try_publish cfg e (ORDER_CANCELLED cfg) (cancelled_event orderId) ;;
     ret (Response 200 updatedOrder))
    (fun err =>
       if bool_decide (err_code err = Some "P2025")
       then ret (Response 404 (error_body "Pedido não encontrado"))
       else ret (Response 500 (error_body "Failed to cancel order"))).

End Handlers.

(** What happens to the service: a creation request, a cancellation
    request, a delivery from the queue, or the AMQP channel coming up
    (the assignment to [amqp] at start-up).  The requests come with the
    answers of the collaborators. *)
Inductive input : Type :=
| Create (e : env) (body : option json)
| Cancel (e : env) (orderId : string)
| Deliver (msg : option message)
| Connect.

Definition step (cfg : config) (i : input) (w : world (gmap string row))
  : world (gmap string row) :=
  match i with
  | Create e body => (post_order cfg e body w).2
  | Cancel e orderId => (post_cancel cfg e orderId w).2
  | Deliver msg => (consume cfg msg w).2
  | Connect => World (userCache w) (refs w) true (store w) (trace w)
  end.

(** The service at start-up, with an empty order table. *)
Definition initial : world (gmap string row) := World ∅ 0 false ∅ [].

Inductive reachable (cfg : config) : world (gmap string row) → Prop :=
| reachable_initial : reachable cfg initial
| reachable_step i w : reachable cfg w → reachable cfg (step cfg i w).

End App.

(** ** index.js: orders in memory *)

Module Index.

(** An entry of the [orders] map. *)
Record order := Order {
  o_id : string;
  o_userId : json;
  o_items : list json;
  o_total : Z;
  o_status : status;
  o_createdAt : string
}.

Definition order_json (o : order) : json :=
  JObj [("id", JStr (o_id o)); ("userId", o_userId o); ("items", JArr (o_items o));
        ("total", JNum (o_total o)); ("status", status_json (o_status o));
        ("createdAt", JStr (o_createdAt o))].

Section Handlers.
Context (cfg : config).

(** The second half of [app.post('/')], index.js lines 180 to 194. *)
Definition create_order (e : env) (userId : json) (items : list json) (total : Z)
  : M (gmap string order) response :=
  let id := "o_" +:+ nanoid e in
  let order := Order id userId items total Created (now e) in
  orders <- gets store ;;
  put_store (<[id := order]> orders) ;;
  try_publish cfg e (ORDER_CREATED cfg) (JSON_stringify (order_json order)) ;;
  ret (Response 201 (order_json order)).

(** [app.post('/')], index.js lines 156 to 195. *)
Definition post_order (e : env) (body : option json) : M (gmap string order) response :=
  fields <- read_body body ;;
  match fields with
  | None => ret bad_request
  | Some (userId, items, total) =>
      v <- validate e userId ;;
      match v with
      | Reject code reason => ret (Response code (error_body reason))
      | Admit => create_order e userId items total
      end
  end.

(** [app.post('/orders/:id/cancel')], index.js lines 133 to 153. *)
Definition post_cancel (e : env) (orderId : string) : M (gmap string order) response :=
  orders <- gets store ;;
  match orders !! orderId with
  | None => ret (Response 404 (error_body "Pedido não encontrado"))
  | Some o =>
      let order := Order (o_id o) (o_userId o) (o_items o) (o_total o) Cancelled (o_createdAt o) in
      put_store (<[orderId := order]> orders) ;;
      try_publish cfg e (ORDER_CANCELLED cfg) (cancelled_event orderId) ;;
      ret (Response 200 (order_json order))
  end.

End Handlers.

Inductive input : Type :=
| Create (e : env) (body : option json)
| Cancel (e : env) (orderId : string)
| Deliver (msg : option message)
| Connect.

Definition step (cfg : config) (i : input) (w : world (gmap string order))
  : world (gmap string order) :=
  match i with
  | Create e body => (post_order cfg e body w).2
  | Cancel e orderId => (post_cancel cfg e orderId w).2
  | Deliver msg => (consume cfg msg w).2
  | Connect => World (userCache w) (refs w) true (store w) (trace w)
  end.

(** The service at start-up. *)
Definition initial : world (gmap string order) := World ∅ 0 false ∅ [].

(** [nanoid] hands out an identifier that no stored order has. *)
Definition fresh_id (i : input) (w : world (gmap string order)) : Prop :=
  match i with
  | Create e _ => store w !! ("o_" +:+ nanoid e) = None
  | _ => True
  end.

End Index.

(** ** The circuit breaker *)

Module CircuitBreaker.

(** [circuitBreakerOptions], app.js lines 128 to 132: the three options the
    service sets. *)
Record options := Options {
  timeout : Z;
  errorThresholdPercentage : Z;
  resetTimeout : Z
}.

Definition circuitBreakerOptions (cfg : config) : options :=
  Options (HTTP_TIMEOUT_MS cfg) 50 10000.

Inductive phase : Type :=
| Closed
| Open (since : Z)
| HalfOpen.

(** What the wrapped call does when it is let through: whether the users
    service answers with a success, and how long it takes. *)
Record upstream := Upstream {
  answers : bool;
  latency : Z
}.

Inductive circuit_error : Type :=
| CircuitOpen
| UpstreamFailure
| TimedOut.

Inductive result : Type :=
| Ok
| Err (e : circuit_error).

(** The breaker's state: its phase and the outcomes of the trailing
    window, each with the time of the call and whether it failed. *)
Record breaker := Breaker {
  state : phase;
  window : list (Z * bool)
}.

Definition initial : breaker := Breaker Closed [].

Section Model.
(** The length of the trailing window and the minimum call volume are
    configuration the service leaves to the breaker's defaults. *)
Context (opts : options) (rolling : Z) (volume : nat).

(** Modelled from the spec: the result of a call that is let through (the
    breaker is the [opossum] package, which is not among the sources).  A
    call that exceeds the timeout returns [TimedOut] and counts as a
    failure. *)
Definition outcome (u : upstream) : result :=
  if (timeout opts <? latency u)%Z then Err TimedOut
  else if answers u then Ok
  else Err UpstreamFailure.

Definition failed (u : upstream) : bool :=
  match outcome u with
  | Ok => false
  | Err _ => true
  end.

(** The outcomes still inside the trailing window at time [t]. *)
Definition trailing (t : Z) (w : list (Z * bool)) : list (Z * bool) :=
  filter (fun c => bool_decide (t - rolling < c.1)%Z) w.

Definition failures (w : list (Z * bool)) : nat :=
  length (filter (fun c => c.2 = true) w).

(** Modelled from the spec: the failure percentage of the trailing window
    meets or exceeds the configured threshold. *)
Definition over_threshold (w : list (Z * bool)) : bool :=
  bool_decide (errorThresholdPercentage opts * Z.of_nat (length w)
               ≤ 100 * Z.of_nat (failures w))%Z.

(** Modelled from the spec: the minimum call volume has been reached. *)
Definition floor_reached (w : list (Z * bool)) : bool :=
  bool_decide (volume ≤ length w).

(** Modelled from the spec: open to half-open, on the elapsed cool-down
    alone. *)
Definition advance (t : Z) (b : breaker) : breaker :=
  match state b with
  | Open since =>
      if bool_decide (since + resetTimeout opts ≤ t)%Z
      then Breaker HalfOpen (window b)
      else b
  | _ => b
  end.

(** Modelled from the spec: the breaker itself is the [opossum] package,
    which is not among the sources; this is section 4.2 of the
    specification.  Closed: the call passes through, its outcome joins the
    trailing window, and the breaker opens when the failure percentage
    meets or exceeds the threshold and the volume floor has been reached.
    Open: the call is short-circuited without the wrapped call being made.
    Half-open: the one probe closes the breaker when it succeeds and
    reopens it, restarting the cool-down, when it fails or times out. *)
Definition call (t : Z) (u : upstream) (b : breaker) : result * breaker :=
  let b := advance t b in
  let w := trailing t (window b) ++ [(t, failed u)] in
  match state b with
  | Closed =>
      if over_threshold w && floor_reached w
      then (outcome u, Breaker (Open t) w)
      else (outcome u, Breaker Closed w)
  | Open _ => (Err CircuitOpen, b)
  | HalfOpen => (outcome u, Breaker (if failed u then Open t else Closed) w)
  end.

Fixpoint run (calls : list (Z * upstream)) (b : breaker) : breaker :=
  match calls with
  | [] => b
  | (t, u) :: rest => run rest (call t u b).2
  end.

End Model.

End CircuitBreaker.

(** ** Fetching with a timeout and with retries

    [fetchWithTimeout] and [fetchWithRetry], app.js lines 96 to 119 (the
    same code in index.js, lines 72 to 99). *)

Module Net.

(** What the handlers read of a fetch response. *)
Record http_response := HttpResponse { ok : bool; http_status : nat }.

(** The calls the functions make: a fetch of a url under a timeout, and a
    wait of some milliseconds. *)
Inductive call : Type :=
| Fetch (url : string) (ms : Z)
| Wait (ms : Z).

Section Fetching.
(** How the network settles the fetches, in the order they are made: with
    a response, or by a throw (a network error, or the abort that the
    timeout triggers). *)
Context (network : nat → completion http_response).

(** [fetchWithTimeout(url, ms)], as the [i]-th fetch. *)
Definition fetchWithTimeout (i : nat) (url : string) (ms : Z)
  : completion http_response * list call :=
  (network i, [Fetch url ms]).

(** The message of the error [fetchWithRetry] ends with. *)
Definition retries_exhausted (url : string) (retries : Z) : js_error :=
  JsError None ("Failed to fetch " +:+ url +:+ " after " +:+ pretty retries +:+ " retries.").

(** The loop of [fetchWithRetry] with [n] rounds left, the next fetch
    being the [i]-th. *)
Fixpoint retry_loop (url : string) (timeout : Z) (retries : Z) (delay : Z) (n i : nat)
  : completion http_response * list call :=
  match n with
  | 0 => (Throw (retries_exhausted url retries), [])
  | S n' =>
      let (res, fetched) := fetchWithTimeout i url timeout in
      match res with
      | Normal r =>
          if ok r then (Normal r, fetched)
          else
            let (final, rest) := retry_loop url timeout retries delay n' (S i) in
            (final, fetched ++ Wait delay :: rest)
      | Throw _ =>
          let (final, rest) := retry_loop url timeout retries delay n' (S i) in
          (final, fetched ++ Wait delay :: rest)
      end
  end.

(** [fetchWithRetry(url, timeout, retries = 3, delay = 300)]; an argument
    left out is [None].  The loop runs while [i < retries]. *)
Definition fetchWithRetry (url : string) (timeout : Z) (retries delay : option Z)
  : completion http_response * list call :=
  let retries := default 3%Z retries in
  let delay := default 300%Z delay in
  retry_loop url timeout retries delay (Z.to_nat retries) 0.

End Fetching.

End Net.

(** ** The users service

    The second module of app.js (lines 237 to 375): the registry that
    publishes the user events the orders service consumes. *)

Module Users.

(** A row of the user table, with the columns the handlers name. *)
Record user := User {
  u_id : string;
  u_name : string;
  u_email : string;
  u_updatedAt : string
}.

Definition user_json (u : user) : json :=
  JObj [("id", JStr (u_id u)); ("name", JStr (u_name u)); ("email", JStr (u_email u));
        ("updatedAt", JStr (u_updatedAt u))].

Definition invalid_argument : js_error := JsError None "Invalid value provided".

(** Some row other than [id]'s holds [email]. *)
Definition email_taken (tbl : gmap string user) (id : string) (email : string) : bool :=
  bool_decide (map_Exists (fun k u => k ≠ id ∧ u_email u = email) tbl).

(** Modelled from the spec: the persistence collaborator of the users
    service (the Prisma client and its schema are not among the sources).
    A user is stored under the identifier the database generates; name and
    email are text columns; a duplicate of the unique email (or of the
    key) is the conflict P2002; an unreachable database throws. *)
Definition prisma_user_create (e : env) (generated : string) (name email : json)
  : M (gmap string user) user :=
  if db_down e then (emit (DbCreate generated false) ;; throw App.db_unreachable)
  else
    match name, email with
    | JStr n, JStr m =>
        tbl <- gets store ;;
        if email_taken tbl generated m || bool_decide (is_Some (tbl !! generated))
        then emit (DbCreate generated false) ;; throw App.P2002
        else
          let u := User generated n m (now e) in
          put_store (<[generated := u]> tbl) ;;
          emit (DbCreate generated true) ;;
          ret u
    | _, _ => emit (DbCreate generated false) ;; throw invalid_argument
    end.

(** Modelled from the spec: the persistence collaborator of the users
    service.  The row of [id] gets the new name, email and modification
    time; a missing row is the not-found error P2025, an email another
    user holds the conflict P2002. *)
Definition prisma_user_update (e : env) (id : string) (name email : json) (updatedAt : string)
  : M (gmap string user) user :=
  if db_down e then (emit (DbUpdate id false) ;; throw App.db_unreachable)
  else
    match name, email with
    | JStr n, JStr m =>
        tbl <- gets store ;;
        match tbl !! id with
        | None => emit (DbUpdate id false) ;; throw App.P2025
        | Some _ =>
            if email_taken tbl id m
            then emit (DbUpdate id false) ;; throw App.P2002
            else
              let u := User id n m updatedAt in
              put_store (<[id := u]> tbl) ;;
              emit (DbUpdate id true) ;;
              ret u
        end
    | _, _ => emit (DbUpdate id false) ;; throw invalid_argument
    end.

(** Modelled from the spec: the persistence collaborator of the users
    service, [getUser(id)]: the row, or [null] when there is none. *)
Definition prisma_user_findUnique (e : env) (id : string) : M (gmap string user) (option user) :=
  if db_down e then throw App.db_unreachable
  else tbl <- gets store ;; ret (tbl !! id).

Section Handlers.
(** For the users service [EXCHANGE] is its own exchange and the two user
    routing keys are [ROUTING_KEYS.USER_CREATED] and
    [ROUTING_KEYS.USER_UPDATED] of [common/events.js]. *)
Context (cfg : config).

(** [const { name, email } = req.body || {}] and the check of both;
    [None] is the 400 branch. *)
Definition read_user_body (body : option json) : M (gmap string user) (option (json * json)) :=
  let b := if truthy body then default (JObj []) body else JObj [] in
  name <- lift (get_prop b "name") ;;
  email <- lift (get_prop b "email") ;;
  match name, email with
  | Some n, Some m =>
      if truthy (Some n) && truthy (Some m) then ret (Some (n, m)) else ret None
  | _, _ => ret None
  end.

Definition fields_required : response :=
  Response 400 (error_body "name and email are required").

(** [app.post('/')] of the users service, app.js lines 302 to 328.
    [generated] is the identifier the database gives the new row. *)
Definition post_user (e : env) (generated : string) (body : option json)
  : M (gmap string user) response :=
  fields <- read_user_body body ;;
  match fields with
  | None => ret fields_required
  | Some (name, email) =>
      try_catch
        (user <- prisma_user_create e generated name email ;;
         try_publish cfg e (ROUTING_KEY_USER_CREATED cfg) (JSON_stringify (user_json user)) ;;
         ret (Response 201 (user_json user)))
        (fun err =>
           if bool_decide (err_code err = Some "P2002")
           then ret (Response 409 (error_body "Email already exists"))
           else ret (Response 500 (error_body "Failed to create user")))
  end.

(** [app.put('/:id')], app.js lines 339 to 372. *)
Definition put_user (e : env) (id : string) (body : option json)
  : M (gmap string user) response :=
  fields <- read_user_body body ;;
  match fields with
  | None => ret fields_required
  | Some (name, email) =>
      try_catch
        (user <- prisma_user_update e id name email (now e) ;;
         try_publish cfg e (ROUTING_KEY_USER_UPDATED cfg) (JSON_stringify (user_json user)) ;;
         ret (Response 200 (user_json user)))
        (fun err =>
           if bool_decide (err_code err = Some "P2025")
           then ret (Response 404 (error_body "User not found"))
           else if bool_decide (err_code err = Some "P2002")
           then ret (Response 409 (error_body "Email already exists"))
           else ret (Response 500 (error_body "Failed to update user")))
  end.

(** [app.get('/:id')], app.js lines 330 to 336: no [try] around the
    lookup. *)
Definition get_user (e : env) (id : string) : M (gmap string user) response :=
  user <- prisma_user_findUnique e id ;;
  match user with
  | None => ret (Response 404 (error_body "not found"))
  | Some u => ret (Response 200 (user_json u))
  end.

End Handlers.

(** [connectAMQP(retries = 5, delay = 3000)], app.js lines 271 to 289.
    [broker i] tells whether the [i]-th [createChannel] succeeds; the
    result is whether [amqp] got its channel, and the waits made. *)
Fixpoint connectAMQP (broker : nat → bool) (i : nat) (retries : nat) (delay : Z)
  : bool * list Z :=
  if broker i then (true, [])
  else
    match retries with
    | 0 => (false, [])
    | S r =>
        let (connected, waits) := connectAMQP broker (S i) r (delay * 2) in
        (connected, delay :: waits)
    end.

(** The call at start-up, [await connectAMQP()]. *)
Definition connect_at_startup (broker : nat → bool) : bool * list Z :=
  connectAMQP broker 0 5 3000.

End Users.

(** ** The orders service before the breaker

    The third module of gateway/src/index.js (lines 87 to 229): the
    in-memory orders service with the live check made by
    [fetchWithTimeout] itself.  Its consumer, its cancellation and the
    second half of its creation are the code of index.js. *)

Module Legacy.

Definition invalid_user : string := "usuário inválido".

Section Handlers.
Context (cfg : config).

(** The validation step of [app.post('/')], lines 198 to 207; [live] is
    how [fetchWithTimeout] settles. *)
Definition validate (live : completion Net.http_response) (userId : json)
  : M (gmap string Index.order) verdict :=
  try_catch
    (resp <- lift live ;;
     if negb (Net.ok resp) then ret (Reject 400 invalid_user) else ret Admit)
    (fun err =>
       hit <- userCache_has (Some userId) ;;
       if negb hit then ret (Reject 503 user_unknown) else ret Admit).

(** [app.post('/')], lines 191 to 224. *)
Definition post_order (e : env) (live : completion Net.http_response) (body : option json)
  : M (gmap string Index.order) response :=
  fields <- read_body body ;;
  match fields with
  | None => ret bad_request
  | Some (userId, items, total) =>
      v <- validate live userId ;;
      match v with
      | Reject code reason => ret (Response code (error_body reason))
      | Admit => Index.create_order cfg e userId items total
      end
  end.

End Handlers.

End Legacy.

(** ** Listing the orders *)

Module Listing.

(** [orderBy: { createdAt: 'desc' }]: the first row is not older than the
    second.  Times are compared as their ISO text. *)
Definition newest_first (r1 r2 : App.row) : Prop :=
  String.leb (App.r_createdAt r2) (App.r_createdAt r1) = true.

#[global] Instance newest_first_dec (r1 r2 : App.row) : Decision (newest_first r1 r2).
Proof. unfold newest_first. apply _. Defined.

(** Modelled from the spec: the persistence collaborator, [listOrders()]:
    every row of the table, newest first (rows of the same time in an
    order of the database's choosing); an unreachable database throws.
    A read leaves no entry in the trace. *)
Definition prisma_order_findMany (e : env) : M (gmap string App.row) (list App.row) :=
  if db_down e then throw App.db_unreachable
  else tbl <- gets store ;; ret (merge_sort newest_first (map_to_list tbl).*2).

(** [order => ({ ...order, items: JSON.parse(order.items) })]. *)
Definition parse_items (r : App.row) : completion json :=
  match JSON_parse (App.r_items r) with
  | Normal items => Normal (App.order_json r items)
  | Throw err => Throw err
  end.

(** [ordersFromDb.map(...)]: the first row that throws ends the map. *)
Fixpoint map_rows (rows : list App.row) : completion (list json) :=
  match rows with
  | [] => Normal []
  | r :: rest =>
      match parse_items r with
      | Throw err => Throw err
      | Normal o =>
          match map_rows rest with
          | Throw err => Throw err
          | Normal os => Normal (o :: os)
          end
      end
  end.

(** [app.get('/')], app.js lines 78 to 93. *)
Definition get_orders (e : env) : M (gmap string App.row) response :=
  try_catch
    (ordersFromDb <- prisma_order_findMany e ;;
     orders <- lift (map_rows ordersFromDb) ;;
     ret (Response 200 (JArr orders)))
    (fun err => ret (Response 500 (error_body "Failed to list orders"))).

End Listing.

(** * The vocabulary of the properties *)

(** The configuration of the examples: the defaults of app.js where it
    states them, and the four routing keys named after the event kinds. *)
Definition default_config : config :=
  Config "app.topic" "user.created" "user.updated" "order.created" "order.cancelled" 2000.

Definition empty_world {Store : Type} (s : Store) : world Store := World ∅ 0 true s [].

Section Vocabulary.
Context {Store : Type} (cfg : config).

(** The world with more calls on its trace. *)
Definition logged (es : list effect) (w : world Store) : world Store :=
  World (userCache w) (refs w) (amqp w) (store w) (trace w ++ es).

(** The world with another order table. *)
Definition stored (s : Store) (w : world Store) : world Store :=
  World (userCache w) (refs w) (amqp w) s (trace w).

(** Whether the cache holds an entry under the key the value [u] is. *)
Definition cached (u : json) (w : world Store) : bool :=
  match prim_key (Some u) with
  | Some k => bool_decide (is_Some (userCache w !! k))
  | None => false
  end.

(** The event the handler publishes, if the channel is there and
    [publish] does not throw. *)
Definition published (e : env) (w : world Store) (rk : string) (payload : text)
  : list effect :=
  if amqp w && negb (publish_throws e)
  then [Publish (EXCHANGE cfg) rk payload true]
  else [].

End Vocabulary.

(** A field of a request body as the handler destructures it: missing
    when there is no body or the body is not an object. *)
Definition field (body : option json) (name : string) : option json :=
  match body with
  | Some (JObj fields) => assoc name fields
  | _ => None
  end.

(** The three checks of the body, in the words of the handler's error
    message: [userId] truthy, [items] an array, [total] a number. *)
Definition checked (body : option json) : option (json * list json * Z) :=
  match field body "userId", isArray (field body "items"), isNumber (field body "total") with
  | Some u, Some its, Some t => if truthy (Some u) then Some (u, its, t) else None
  | _, _, _ => None
  end.

(** The request body is invalid: [userId] is missing or falsy, [items] is
    not an array, or [total] is not a number. *)
Definition invalid_body (body : option json) : Prop :=
  truthy (field body "userId") = false
  ∨ isArray (field body "items") = None
  ∨ isNumber (field body "total") = None.

(** The same answers of the collaborators, with [publish] throwing or
    not. *)
Definition with_publish (throws : bool) (e : env) : env :=
  Env (fire_outcome e) (nanoid e) (now e) (db_down e) throws.

(** In a run of calls, every publication comes after a write that the
    database has accepted. *)
Definition recorded_before_publish (new : list effect) : Prop :=
  ∀ l1 ex rk payload persistent l2,
    new = l1 ++ Publish ex rk payload persistent :: l2 →
    ∃ id, DbCreate id true ∈ l1 ∨ DbUpdate id true ∈ l1.

(** An order's status stays as it is or goes from [created] to
    [cancelled]. *)
Definition status_step (s s' : status) : Prop :=
  s' = s ∨ (s = Created ∧ s' = Cancelled).

(** The row [prisma.order.create] stores for an admitted request. *)
Definition new_row (e : env) (u : json) (its : list json) (t : Z) : App.row :=
  App.Row ("o_" +:+ nanoid e) u (Serialized (JArr its)) t Created (now e) (now e).

(** A row after [prisma.order.update] has cancelled it at [now e]. *)
Definition cancelled_row (e : env) (r : App.row) : App.row :=
  App.Row (App.r_id r) (App.r_userId r) (App.r_items r) (App.r_total r) Cancelled
    (App.r_createdAt r) (now e).

(** An entry of the [orders] map after [order.status = 'cancelled']. *)
Definition cancelled_order (o : Index.order) : Index.order :=
  Index.Order (Index.o_id o) (Index.o_userId o) (Index.o_items o) (Index.o_total o)
    Cancelled (Index.o_createdAt o).

(** Every row holds its items as the text of a JSON value. *)
Definition tidy (tbl : gmap string App.row) : Prop :=
  ∀ id r, tbl !! id = Some r → ∃ j, App.r_items r = Serialized j.

(** ** Requests and states of the examples *)

Definition ana : json := JObj [("id", JStr "u1"); ("name", JStr "Ana")].

Definition ana_renamed : json := JObj [("id", JStr "u1"); ("name", JStr "Ana Lima")].

Definition bruno : json := JObj [("id", JStr "u2"); ("name", JStr "Bruno")].

Definition sample_events : list message :=
  [Message (Serialized ana) "user.created";
   Message (Serialized bruno) "user.created";
   Message (Serialized ana_renamed) "user.updated"].

(** A delivery of a kind the consumer does not know, one whose payload
    is [null], and one whose user [id] is an object. *)
Definition order_event : message := Message (Serialized ana) "order.created".

Definition null_event : message := Message (Serialized JNull) "user.updated".

Definition object_keyed : json := JObj [("id", JObj []); ("name", JStr "Ana")].

Definition object_keyed_event : message := Message (Serialized object_keyed) "user.created".

Definition timestamp : string := "2024-01-01T00:00:00.000Z".

(** The users service answers; the database and the channel work. *)
Definition calm : env := Env Resolved "abc123" timestamp false false.

(** The breaker rejects the call. *)
Definition outage : env :=
  Env (Rejected (JsError None CIRCUIT_OPEN)) "abc123" timestamp false false.

(** A day later: the same answers at another time. *)
Definition next_day : env := Env Resolved "def456" "2024-01-02T00:00:00.000Z" false false.

Definition sample_items : list json := [JObj [("sku", JStr "a")]].

Definition sample_request : option json :=
  Some (JObj [("userId", JStr "u1"); ("items", JArr sample_items); ("total", JNum 150)]).

Definition unknown_user_request : option json :=
  Some (JObj [("userId", JStr "u9"); ("items", JArr sample_items); ("total", JNum 150)]).

Definition negative_total_request : option json :=
  Some (JObj [("userId", JStr "u1"); ("items", JArr []); ("total", JNum (-5))]).

Definition items_not_an_array : option json :=
  Some (JObj [("userId", JStr "u1"); ("items", JStr "a"); ("total", JNum 150)]).

Definition sample_order_cancelled : Index.order :=
  Index.Order "o_abc123" (JStr "u1") sample_items 150 Cancelled timestamp.

(** The row of that order after a second cancellation a day later. *)
Definition sample_row_cancelled : App.row :=
  App.Row "o_abc123" (JStr "u1") (Serialized (JArr sample_items)) 150 Cancelled
    timestamp "2024-01-02T00:00:00.000Z".

(** The Prisma-backed service once the channel is up and the event that
    creates user u1 has been consumed. *)
Definition app_knows_u1 : world (gmap string App.row) :=
  App.step default_config (App.Deliver (Some (Message (Serialized ana) "user.created")))
    (App.step default_config App.Connect App.initial).

(** The in-memory service after an order has been created and cancelled. *)
Definition index_cancelled_once : world (gmap string Index.order) :=
  Index.step default_config (Index.Cancel calm "o_abc123")
    (Index.step default_config (Index.Create calm sample_request)
       (Index.step default_config Index.Connect Index.initial)).

(** The same for the Prisma-backed service. *)
Definition app_cancelled_once : world (gmap string App.row) :=
  App.step default_config (App.Cancel calm "o_abc123")
    (App.step default_config (App.Create calm sample_request)
       (App.step default_config App.Connect App.initial)).

(** ** The vocabulary of the further properties *)

(** A fetch that does not end the retries: it throws, or its response is
    not ok. *)
Definition unsuccessful (c : completion Net.http_response) : Prop :=
  match c with
  | Normal r => Net.ok r = false
  | Throw _ => True
  end.

(** The calls of [k] rounds of [fetchWithRetry] that did not succeed: each
    a fetch followed by a wait. *)
Definition failed_rounds (url : string) (timeout delay : Z) (k : nat) : list Net.call :=
  mjoin (replicate k [Net.Fetch url timeout; Net.Wait delay]).

Definition is_fetch (c : Net.call) : bool :=
  match c with
  | Net.Fetch _ _ => true
  | Net.Wait _ => false
  end.

(** The number of fetches among some calls. *)
Definition fetches (calls : list Net.call) : nat :=
  length (filter (fun c => is_fetch c = true) calls).

(** The first [k] waits of an exponential backoff that starts at
    [delay]. *)
Definition backoff (delay : Z) (k : nat) : list Z :=
  (fun j => delay * 2 ^ Z.of_nat j)%Z <$> seq 0 k.

Definition total (waits : list Z) : Z := foldr Z.add 0%Z waits.

(** The two fields the users service reads of a body, when both are
    truthy. *)
Definition user_fields (body : option json) : option (json * json) :=
  match field body "name", field body "email" with
  | Some n, Some m => if truthy (Some n) && truthy (Some m) then Some (n, m) else None
  | _, _ => None
  end.

(** The users service at start-up, with its channel. *)
Definition users_initial : world (gmap string Users.user) := World ∅ 0 true ∅ [].

Definition ana_request : option json :=
  Some (JObj [("name", JStr "Ana"); ("email", JStr "ana@example.com")]).

Definition ana_again_request : option json :=
  Some (JObj [("name", JStr "Ana Lima"); ("email", JStr "ana@example.com")]).

Definition nameless_request : option json :=
  Some (JObj [("email", JStr "ana@example.com")]).

(** The user the first request creates under the identifier u1. *)
Definition ana_user : Users.user := Users.User "u1" "Ana" "ana@example.com" timestamp.

(** The users service after that creation. *)
Definition users_with_ana : world (gmap string Users.user) :=
  (Users.post_user default_config calm "u1" ana_request users_initial).2.

(** A database that cannot be reached. *)
Definition db_outage : env := Env Resolved "abc123" timestamp true false.

(** A network whose first fetch throws, whose second is answered 503 and
    whose later ones are answered 200; and one that never answers. *)
Definition flaky_network (i : nat) : completion Net.http_response :=
  match i with
  | 0 => Throw (JsError None "The operation was aborted")
  | 1 => Normal (Net.HttpResponse false 503)
  | _ => Normal (Net.HttpResponse true 200)
  end.

Definition dead_network (i : nat) : completion Net.http_response :=
  Throw (JsError None "connect ECONNREFUSED").

(** A users service that refuses the identifier, and a fetch that is
    aborted at the timeout. *)
Definition refused : completion Net.http_response := Normal (Net.HttpResponse false 404).

Definition aborted : completion Net.http_response :=
  Throw (JsError None "The operation was aborted").

(** The in-memory service once the channel is up and the event that
    creates user u1 has been consumed. *)
Definition index_knows_u1 : world (gmap string Index.order) :=
  Index.step default_config (Index.Deliver (Some (Message (Serialized ana) "user.created")))
    (Index.step default_config Index.Connect Index.initial).

(** The Prisma-backed service after one order, and after a second one a
    day later. *)
Definition app_one_order : world (gmap string App.row) :=
  App.step default_config (App.Create calm sample_request)
    (App.step default_config App.Connect App.initial).

Definition app_two_orders : world (gmap string App.row) :=
  App.step default_config (App.Create next_day sample_request) app_one_order.

(** A table with a row whose items are not JSON text. *)
Definition unreadable_row : App.row :=
  App.Row "o_x" (JStr "u1") (Malformed "{") 150 Created timestamp timestamp.

Definition app_unreadable_row : world (gmap string App.row) :=
  World ∅ 0 true {[ "o_x" := unreadable_row ]} [].

(** The in-memory service after one order. *)
Definition index_one_order : world (gmap string Index.order) :=
  Index.step default_config (Index.Create calm sample_request)
    (Index.step default_config Index.Connect Index.initial).

(** The state after a sequence of requests, deliveries and connections. *)
Definition app_run (cfg : config) (inputs : list App.input)
    (w : world (gmap string App.row)) : world (gmap string App.row) :=
  foldl (fun w i => App.step cfg i w) w inputs.

(** Two rows of the same order: they differ at most in status and time
    of update. *)
Definition same_order (r r' : App.row) : Prop :=
  App.r_id r' = App.r_id r
  ∧ App.r_userId r' = App.r_userId r
  ∧ App.r_items r' = App.r_items r
  ∧ App.r_total r' = App.r_total r
  ∧ App.r_createdAt r' = App.r_createdAt r.

(** The two ways the consumer settles a delivery: acknowledged, or
    rejected without requeue. *)
Definition settles (m : message) (s : effect) : Prop :=
  s = Ack m ∨ s = Nack m false false.

(** What the orders service puts on the bus: persistent messages on its
    exchange under one of its two routing keys. *)
Definition order_event_shape (cfg : config) (f : effect) : Prop :=
  match f with
  | Publish ex rk _ persistent =>
      ex = EXCHANGE cfg ∧ persistent = true
      ∧ (rk = ORDER_CREATED cfg ∨ rk = ORDER_CANCELLED cfg)
  | _ => True
  end.

Definition is_publish (f : effect) : bool :=
  match f with
  | Publish _ _ _ _ => true
  | _ => false
  end.

(** Unfolds the monad so that a handler applied to a world computes. *)
Ltac run_monad :=
  repeat (unfold bind, ret, throw, try_catch, lift, gets, emit, put_store,
          userCache_set, userCache_has in *; cbn in *).

(** * Properties *)

(** ** The event consumer *)

Section ConsumerProperties.
Context {Store : Type} (cfg : config).
Implicit Types (w : world Store) (m : message).

Lemma deliver_registry_event m w uid p :
  event_of cfg m = Some (uid, p) →
  deliver cfg (Some m) w
  = World (<[KStr uid := p]> (userCache w)) (refs w) (amqp w) (store w) (trace w ++ [Ack m]).
Proof.
  unfold event_of, deliver, consume. intros H.
  case_bool_decide as Hk; [|done].
  destruct (content m) as [[| | | | |fields]|] eqn:Hc; try done.
  destruct (assoc "id" fields) as [[| |?|s| |]|] eqn:Hid; try done.
  simplify_eq. run_monad. by rewrite Hid.
Qed.

Lemma deliver_all_app (l1 l2 : list (option message)) w :
  deliver_all cfg (l1 ++ l2) w = deliver_all cfg l2 (deliver_all cfg l1 w).
Proof. unfold deliver_all. apply foldl_app. Qed.

Lemma apply_events_lookup uid (events : list (string * json)) (c : gmap key json) :
  apply_events events c !! KStr uid
  = match last_applied uid events with
    | Some p => Some p
    | None => c !! KStr uid
    end.
Proof.
  revert c. induction events as [|[u p] rest IH]; intros c; [done|].
  unfold apply_events in *. cbn. rewrite IH.
  destruct (last_applied uid rest); [done|].
  destruct (String.eqb_spec u uid) as [->|Hne].
  - by rewrite lookup_insert_eq.
  - rewrite lookup_insert_ne; [done|congruence].
Qed.

Lemma apply_events_replicate n (ev : string * json) (c : gmap key json) :
  apply_events (replicate (S n) ev) c = <[KStr ev.1 := ev.2]> c.
Proof.
  induction n as [|n IH]; [done|].
  change (replicate (S (S n)) ev) with (ev :: replicate (S n) ev).
  unfold apply_events in *. cbn [foldl]. rewrite <- IH at 2.
  cbn [replicate foldl]. by rewrite insert_insert_eq.
Qed.

(** On registry-change events the consumer is [apply] of the cache, and it
    acknowledges every one of them. *)
Lemma deliver_all_registry_events (msgs : list message) w :
  Forall (registry_event cfg) msgs →
  userCache (deliver_all cfg (Some <$> msgs) w)
  = apply_events (omap (event_of cfg) msgs) (userCache w)
  ∧ refs (deliver_all cfg (Some <$> msgs) w) = refs w
  ∧ store (deliver_all cfg (Some <$> msgs) w) = store w
  ∧ trace (deliver_all cfg (Some <$> msgs) w) = trace w ++ (Ack <$> msgs).
Proof.
  intros Hall. revert w. induction Hall as [|m msgs [[uid p] Hm] _ IH]; intros w.
  - cbn. by rewrite app_nil_r.
  - cbn [fmap list_fmap omap list_omap]. rewrite Hm.
    unfold deliver_all in *. cbn [foldl].
    rewrite (deliver_registry_event m w uid p Hm).
    destruct (IH (World (<[KStr uid := p]> (userCache w)) (refs w) (amqp w) (store w)
                        (trace w ++ [Ack m]))) as (Hc & Hr & Hs & Ht).
    rewrite Hc, Hr, Hs, Ht. cbn. by rewrite <- app_assoc.
Qed.

(** C9.  A delivery whose payload does not decode is rejected with
    [nack(msg, false, false)], that is without requeue, it is not
    acknowledged, and the event cache (and the rest of the state) is as it
    was before. *)
Theorem malformed_message_discarded m w err :
  JSON_parse (content m) = Throw err →
  consume cfg (Some m) w
  = (Normal (),
     World (userCache w) (refs w) (amqp w) (store w) (trace w ++ [Nack m false false])).
Proof.
  intros Hparse. unfold consume. run_monad. by rewrite Hparse.
Qed.

(** C2.  After any finite sequence of registry-change events the snapshot
    cached for a user is the payload of the last event of the sequence that
    carries that user (the earlier snapshot when there is none), whatever
    the kinds of the events and whatever their payloads say; and delivering
    one of the events any number of further times where it stands leaves
    the cache as the single delivery leaves it. *)
Theorem event_cache_last_applied_wins (msgs : list message) w :
  Forall (registry_event cfg) msgs →
  (∀ uid,
     userCache (deliver_all cfg (Some <$> msgs) w) !! KStr uid
     = match last_applied uid (omap (event_of cfg) msgs) with
       | Some p => Some p
       | None => userCache w !! KStr uid
       end)
  ∧ (∀ pre m post n,
       msgs = pre ++ m :: post →
       let again := deliver_all cfg (Some <$> (pre ++ replicate (S n) m ++ post)) w in
       userCache again = userCache (deliver_all cfg (Some <$> msgs) w)
       ∧ refs again = refs (deliver_all cfg (Some <$> msgs) w)).
Proof.
  intros Hall. split.
  - intros uid.
    destruct (deliver_all_registry_events msgs w Hall) as (-> & _).
    apply apply_events_lookup.
  - intros pre m post n -> again. subst again.
    apply Forall_app in Hall as [Hpre Hrest].
    apply Forall_cons in Hrest as [Hm Hpost].
    assert (Hrep : Forall (registry_event cfg) (replicate (S n) m)).
    { apply Forall_forall. intros x Hx. apply elem_of_replicate in Hx as [-> _]. done. }
    rewrite !fmap_app, !deliver_all_app.
    change (Some <$> m :: post) with ((Some <$> [m]) ++ (Some <$> post)).
    rewrite deliver_all_app.
    set (w1 := deliver_all cfg (Some <$> pre) w).
    destruct (deliver_all_registry_events (replicate (S n) m) w1 Hrep) as (Hc1 & Hr1 & _).
    destruct (deliver_all_registry_events [m] w1 (Forall_cons_2 _ _ _ Hm (Forall_nil_2 _)))
      as (Hc2 & Hr2 & _).
    destruct (deliver_all_registry_events post
                (deliver_all cfg (Some <$> replicate (S n) m) w1) Hpost) as (-> & -> & _).
    destruct (deliver_all_registry_events post
                (deliver_all cfg (Some <$> [m]) w1) Hpost) as (-> & -> & _).
    rewrite Hc1, Hc2, Hr1, Hr2.
    destruct Hm as [[uid p] Hm].
    assert (Hev : omap (event_of cfg) (replicate (S n) m) = replicate (S n) (uid, p)).
    { clear -Hm. generalize (S n) as k.
      induction k as [|k IH]; [done|]. cbn [replicate omap list_omap].
      by rewrite Hm, IH. }
    rewrite Hev, apply_events_replicate. cbn. rewrite Hm. done.
Qed.

End ConsumerProperties.

(** C9 at a payload that is not JSON. *)
Lemma malformed_message_discarded_witness :
  consume default_config
    (Some (Message (Malformed "{not json") "user.created")) (empty_world ())
  = (Normal (),
     World ∅ 0 true () [Nack (Message (Malformed "{not json") "user.created") false false]).
Proof.
  exact (malformed_message_discarded default_config
           (Message (Malformed "{not json") "user.created") (empty_world ())
           SyntaxError eq_refl).
Defined.

(** C2 at three events: u1 is created, u2 is created, u1 is updated; the
    snapshot cached for u1 is the update's. *)
Lemma event_cache_last_applied_wins_witness :
  userCache (deliver_all default_config (Some <$> sample_events) (empty_world ()))
    !! KStr "u1" = Some ana_renamed.
Proof.
  destruct (event_cache_last_applied_wins default_config sample_events
              (empty_world ())) as [Hlast _].
  { repeat constructor; eexists; vm_compute; reflexivity. }
  rewrite Hlast. reflexivity.
Defined.

(** ** Order creation and cancellation *)

Section HandlerProperties.
Context {Store : Type} (cfg : config).
Implicit Types (w : world Store) (e : env).

Lemma logged_nil w : logged [] w = w.
Proof. destruct w. unfold logged. cbn. by rewrite app_nil_r. Qed.

Lemma read_body_checked body w :
  read_body body w = (Normal (checked body), w).
Proof.
  unfold read_body, checked, field.
  destruct body as [[|[]|n|s| |fields]|]; run_monad; try reflexivity.
  all: repeat case_match; by simplify_eq/=.
Qed.

Lemma validate_resolved e u w :
  fire_outcome e = Resolved →
  validate e u w = (Normal Admit, logged [Fire u] w).
Proof. intros H. unfold validate, breaker_fire. run_monad. by rewrite H. Qed.

Lemma validate_rejected e u w err :
  fire_outcome e = Rejected err →
  validate e u w
  = (Normal (if cached u w then Admit else Reject 503 user_unknown), logged [Fire u] w).
Proof.
  intros H. unfold validate, breaker_fire, cached, userCache_has.
  destruct (prim_key (Some u)) as [k|]; run_monad; rewrite H; cbn.
  - destruct (bool_decide (is_Some (userCache w !! k))); cbn; [done|].
    by destruct (String.eqb (err_message err) CIRCUIT_OPEN).
  - by destruct (String.eqb (err_message err) CIRCUIT_OPEN).
Qed.

Lemma try_publish_run e rk payload w :
  try_publish cfg e rk payload w
  = (Normal (),
     if amqp w && negb (publish_throws e)
     then logged [Publish (EXCHANGE cfg) rk payload true] w
     else w).
Proof.
  unfold try_publish, channel_publish. run_monad.
  destruct (amqp w), (publish_throws e); reflexivity.
Qed.

Lemma try_publish_logged e rk payload w :
  try_publish cfg e rk payload w = (Normal (), logged (published cfg e w rk payload) w).
Proof.
  rewrite try_publish_run. unfold published.
  destruct (amqp w && negb (publish_throws e)); [done|]. by rewrite logged_nil.
Qed.

Lemma cached_hit (u : json) k (snapshot : json) w :
  prim_key (Some u) = Some k → userCache w !! k = Some snapshot → cached u w = true.
Proof. unfold cached. intros -> H. apply bool_decide_eq_true. eauto. Qed.

Lemma cached_miss (u : json) w :
  (∀ k, prim_key (Some u) = Some k → userCache w !! k = None) → cached u w = false.
Proof.
  unfold cached. intros H. destruct (prim_key (Some u)) as [k|]; [|done].
  apply bool_decide_eq_false. rewrite (H k eq_refl). by intros [? ?].
Qed.

End HandlerProperties.

Section Creation.
Context (cfg : config).
Implicit Types (w : world (gmap string App.row)) (e : env).

Lemma app_create_order_run e u its t w :
  App.create_order cfg e u its t w
  = let id := "o_" +:+ nanoid e in
    if db_down e || bool_decide (is_Some (store w !! id))
    then (Normal (Response 500 (error_body "Failed to create order")),
          logged [DbCreate id false] w)
    else
      let r := new_row e u its t in
      let order := App.order_json r (JArr its) in
      (Normal (Response 201 order),
       logged (DbCreate id true :: published cfg e w (ORDER_CREATED cfg) (Serialized order))
         (stored (<[id := r]> (store w)) w)).
Proof.
  unfold App.create_order, App.prisma_order_create, published.
  destruct (db_down e) eqn:Hdown; cbn [orb].
  { by run_monad. }
  unfold bind at 1, try_catch at 1. unfold bind at 1, gets at 1.
  cbn [App.d_id].
  destruct (store w !! ("o_" +:+ nanoid e)) as [r|] eqn:Hid.
  { rewrite bool_decide_true by eauto. by run_monad. }
  rewrite bool_decide_false by (intros [? ?]; done).
  unfold bind, put_store, emit, ret, lift. cbn.
  rewrite try_publish_logged. unfold published. cbn.
  unfold logged, stored. cbn. destruct (amqp w && negb (publish_throws e)); cbn.
  - by rewrite <- app_assoc.
  - by rewrite app_nil_r.
Qed.

Lemma app_post_order_run e body w :
  App.post_order cfg e body w
  = match checked body with
    | None => (Normal bad_request, w)
    | Some (u, its, t) =>
        let admitted :=
          match fire_outcome e with
          | Resolved => true
          | Rejected _ => cached u w
          end in
        if admitted then App.create_order cfg e u its t (logged [Fire u] w)
        else (Normal (Response 503 (error_body user_unknown)), logged [Fire u] w)
    end.
Proof.
  unfold App.post_order. unfold bind at 1. rewrite read_body_checked.
  destruct (checked body) as [[[u its] t]|]; [|done].
  unfold bind. destruct (fire_outcome e) as [|err] eqn:Hfire.
  - by rewrite (validate_resolved e u w Hfire).
  - rewrite (validate_rejected e u w err Hfire).
    assert (cached u (logged [Fire u] w) = cached u w) as Hc by done.
    by destruct (cached u w).
Qed.

Lemma invalid_body_checked body : invalid_body body ↔ checked body = None.
Proof.
  unfold invalid_body, checked. split.
  - intros [H|[H|H]].
    + destruct (field body "userId") as [u|]; [|done]. rewrite H. by repeat case_match.
    + rewrite H. by repeat case_match.
    + rewrite H. by repeat case_match.
  - destruct (field body "userId") as [u|]; [|by left].
    destruct (isArray (field body "items")); [|by right; left].
    destruct (isNumber (field body "total")); [|by right; right].
    destruct (truthy (Some u)); [done|by left].
Qed.

(** C10.  An order-creation request whose body is invalid ([userId]
    missing or falsy, [items] not an array, or [total] not a number) is
    answered with 400 and leaves the world exactly as it was: nothing is
    added to the trace, so the breaker is not fired, nothing is saved and
    nothing is published; the cache and the order table are untouched. *)
Theorem invalid_body_rejected_without_effect e body w :
  invalid_body body →
  App.post_order cfg e body w = (Normal bad_request, w)
  ∧ res_status bad_request = 400.
Proof.
  intros Hbad. apply invalid_body_checked in Hbad.
  rewrite app_post_order_run, Hbad. done.
Qed.

(** C1.  For a creation request that passes the check of its body, with
    user [u]: when the live check through the breaker succeeds the verdict
    is [Admit]; when it fails and the cache has an entry for [u] the
    verdict is [Admit]; in both cases the handler goes on to save the
    order, and answers 201 with the order stored as [created] once the
    database takes it.  When the live check fails and the cache has no
    entry for [u] the verdict is [Reject] and the answer is 503 with the
    reason that the users service is unavailable and the user is not in
    the cache. *)
Theorem validation_verdict e body u its t w :
  checked body = Some (u, its, t) →
  (fire_outcome e = Resolved →
     validate e u w = (Normal Admit, logged [Fire u] w)
     ∧ App.post_order cfg e body w = App.create_order cfg e u its t (logged [Fire u] w))
  ∧ (∀ err k snapshot,
       fire_outcome e = Rejected err →
       prim_key (Some u) = Some k → userCache w !! k = Some snapshot →
       validate e u w = (Normal Admit, logged [Fire u] w)
       ∧ App.post_order cfg e body w = App.create_order cfg e u its t (logged [Fire u] w))
  ∧ (∀ err,
       fire_outcome e = Rejected err →
       (∀ k, prim_key (Some u) = Some k → userCache w !! k = None) →
       validate e u w = (Normal (Reject 503 user_unknown), logged [Fire u] w)
       ∧ App.post_order cfg e body w
         = (Normal (Response 503 (error_body user_unknown)), logged [Fire u] w))
  ∧ (∀ w1,
       db_down e = false → store w1 !! ("o_" +:+ nanoid e) = None →
       ∃ w2,
         App.create_order cfg e u its t w1
         = (Normal (Response 201 (App.order_json (new_row e u its t) (JArr its))), w2)
         ∧ store w2 !! ("o_" +:+ nanoid e) = Some (new_row e u its t)
         ∧ App.r_status (new_row e u its t) = Created).
Proof.
  intros Hbody. split; [|split; [|split]].
  - intros Hfire. split; [by apply validate_resolved|].
    rewrite app_post_order_run, Hbody. cbn. by rewrite Hfire.
  - intros err k snapshot Hfire Hkey Hhit.
    rewrite (validate_rejected e u w err Hfire), app_post_order_run, Hbody. cbn.
    by rewrite Hfire, (cached_hit u k snapshot w Hkey Hhit).
  - intros err Hfire Hmiss.
    rewrite (validate_rejected e u w err Hfire), app_post_order_run, Hbody. cbn.
    by rewrite Hfire, (cached_miss u w Hmiss).
  - intros w1 Hup Hfresh. eexists. rewrite app_create_order_run. cbn zeta.
    rewrite Hup, bool_decide_false by (rewrite Hfresh; by intros [? ?]).
    cbn [orb]. split; [reflexivity|]. split; [|done].
    cbn. by rewrite lookup_insert_eq.
Qed.

(** C7.  When creation is rejected because the live check fails and the
    user is not in the cache, the answer is 503, the order table and the
    cache are as before, and the only call made is the one to the breaker:
    nothing is saved and no order-created event is published. *)
Theorem rejected_creation_leaves_store_and_bus e body u its t w err :
  checked body = Some (u, its, t) →
  fire_outcome e = Rejected err →
  (∀ k, prim_key (Some u) = Some k → userCache w !! k = None) →
  ∃ w',
    App.post_order cfg e body w = (Normal (Response 503 (error_body user_unknown)), w')
    ∧ store w' = store w
    ∧ userCache w' = userCache w
    ∧ trace w' = trace w ++ [Fire u].
Proof.
  intros Hbody Hfire Hmiss. eexists. split.
  - rewrite app_post_order_run, Hbody. cbn.
    rewrite Hfire, (cached_miss u w Hmiss). reflexivity.
  - done.
Qed.

End Creation.

Section Persistence.
Context (cfg : config).
Implicit Types (w : world (gmap string App.row)) (e : env).

Lemma consume_frame {Store : Type} msg (w : world Store) :
  store (consume cfg msg w).2 = store w ∧ amqp (consume cfg msg w).2 = amqp w.
Proof.
  unfold consume. destruct msg as [m|]; [|done].
  unfold userCache_set. run_monad. repeat case_match; by simplify_eq/=.
Qed.

Lemma app_post_cancel_run e id w :
  App.post_cancel cfg e id w
  = if db_down e
    then (Normal (Response 500 (error_body "Failed to cancel order")),
          logged [DbUpdate id false] w)
    else
      match store w !! id with
      | None =>
          (Normal (Response 404 (error_body "Pedido não encontrado")),
           logged [DbUpdate id false] w)
      | Some r =>
          let r' := cancelled_row e r in
          let w' := stored (<[id := r']> (store w)) w in
          match App.r_items r with
          | Serialized j =>
              (Normal (Response 200 (App.order_json r' j)),
               logged (DbUpdate id true
                       :: published cfg e w (ORDER_CANCELLED cfg) (cancelled_event id)) w')
          | Malformed _ =>
              (Normal (Response 500 (error_body "Failed to cancel order")),
               logged [DbUpdate id true] w')
          end
      end.
Proof.
  unfold App.post_cancel, App.prisma_order_update, published, cancelled_row.
  destruct (db_down e) eqn:Hdown.
  { by run_monad. }
  unfold try_catch at 1, bind at 1, bind at 1, gets at 1.
  destruct (store w !! id) as [r|] eqn:Hid.
  2: { by run_monad. }
  unfold bind, put_store, emit, ret, lift. cbn.
  destruct (App.r_items r) as [j|raw]; cbn.
  - rewrite try_publish_logged. unfold published. cbn. unfold logged, stored. cbn.
    destruct (amqp w && negb (publish_throws e)); cbn.
    + by rewrite <- app_assoc.
    + by rewrite app_nil_r.
  - done.
Qed.

Lemma tidy_insert (tbl : gmap string App.row) id r j :
  tidy tbl → App.r_items r = Serialized j → tidy (<[id := r]> tbl).
Proof.
  intros Htbl Hr id' r'. destruct (decide (id = id')) as [->|Hne].
  - rewrite lookup_insert_eq. intros [= <-]. eauto.
  - rewrite lookup_insert_ne by done. apply Htbl.
Qed.

Lemma app_step_tidy i w : tidy (store w) → tidy (store (App.step cfg i w)).
Proof.
  intros Hw. destruct i as [e body|e id|msg|]; cbn [App.step].
  - rewrite app_post_order_run.
    destruct (checked body) as [[[u its] t]|]; [|exact Hw].
    cbn zeta.
    destruct (match fire_outcome e with Resolved => true | Rejected _ => cached u w end);
      [|exact Hw].
    rewrite app_create_order_run. cbn zeta.
    destruct (db_down e || _); [exact Hw|].
    cbn. by eapply tidy_insert.
  - rewrite app_post_cancel_run. destruct (db_down e); [exact Hw|].
    destruct (store w !! id) as [r|] eqn:Hid; [|exact Hw].
    destruct (Hw id r Hid) as [j Hj]. cbn zeta. rewrite Hj. cbn.
    by eapply tidy_insert.
  - by destruct (consume_frame msg w) as [-> _].
  - exact Hw.
Qed.

Lemma app_reachable_tidy w : App.reachable cfg w → tidy (store w).
Proof.
  induction 1 as [|i w _ IH].
  - intros id r. cbn. by rewrite lookup_empty.
  - by apply app_step_tidy.
Qed.

Lemma recorded_before_publish_no_publish (new : list effect) :
  (∀ ex rk payload persistent, Publish ex rk payload persistent ∉ new) →
  recorded_before_publish new.
Proof.
  intros Hno l1 ex rk payload persistent l2 ->.
  exfalso. eapply Hno. apply elem_of_app. right. left.
Qed.

Lemma recorded_before_publish_after (pre : list effect) (rec : effect)
    (pub : list effect) id :
  (∀ ex rk payload persistent, Publish ex rk payload persistent ∉ pre) →
  rec = DbCreate id true ∨ rec = DbUpdate id true →
  recorded_before_publish (pre ++ rec :: pub).
Proof.
  intros Hpre Hrec l1 ex rk payload persistent l2 Heq.
  exists id.
  assert (rec ∈ l1) as Hin.
  { revert l1 Heq. induction pre as [|x pre IH]; intros l1 Heq.
    - destruct l1 as [|y l1]; cbn in Heq.
      + destruct Hrec; simplify_eq.
      + injection Heq as <- _. left.
    - destruct l1 as [|y l1]; cbn in Heq.
      + injection Heq as -> _. exfalso. eapply Hpre. left.
      + injection Heq as <- Heq. right. apply IH; [|done].
        intros ???? Hin. eapply Hpre. right. exact Hin. }
  destruct Hrec as [->| ->]; [by left|by right].
Qed.

End Persistence.

Section Publication.
Context (cfg : config).
Implicit Types (w : world (gmap string App.row)) (e : env).

Lemma checked_total body (u : json) (its : list json) (t : Z) :
  checked body = Some (u, its, t) →
  field body "userId" = Some u
  ∧ field body "items" = Some (JArr its)
  ∧ field body "total" = Some (JNum t).
Proof.
  unfold checked. intros H.
  destruct (field body "userId") as [u'|]; [|done].
  destruct (field body "items") as [[]|]; try done.
  destruct (field body "total") as [[]|]; try done.
  cbn [isArray isNumber] in H. destruct (truthy (Some u')); by simplify_eq.
Qed.

(** C4, as the code has it.  Every order in the table after a creation
    request was there before, unchanged, or is the order of this request:
    its total is the number the request carried as [total], whatever its
    sign, its user and items are the request's, and it is [created]. *)
Theorem persisted_total_is_the_request_total e body w id (r : App.row) :
  store (App.post_order cfg e body w).2 !! id = Some r →
  store w !! id = Some r
  ∨ (store w !! id = None
     ∧ field body "total" = Some (JNum (App.r_total r))
     ∧ field body "userId" = Some (App.r_userId r)
     ∧ (∃ its, field body "items" = Some (JArr its)
               ∧ App.r_items r = JSON_stringify (JArr its))
     ∧ App.r_status r = Created).
Proof.
  rewrite app_post_order_run.
  destruct (checked body) as [[[u its] t]|] eqn:Hbody; [|cbn; by left].
  apply checked_total in Hbody as (Hu & Hits & Ht). cbn zeta.
  destruct (match fire_outcome e with Resolved => true | Rejected _ => cached u w end);
    [|cbn; by left].
  rewrite app_create_order_run. cbn zeta.
  destruct (db_down e) eqn:Hdown; cbn [orb]; [cbn; by left|].
  case_bool_decide as Hfresh; [cbn; by left|].
  cbn. destruct (decide (id = "o_" +:+ nanoid e)) as [->|Hne].
  - rewrite lookup_insert_eq. intros [= <-]. right. cbn.
    split; [|by eauto 10].
    destruct (store w !! ("o_" +:+ nanoid e)) eqn:Hl; [|done].
    exfalso. apply Hfresh. cbn. rewrite Hl. eauto.
  - rewrite lookup_insert_ne by done. by left.
Qed.

(** C8.  In every state the service reaches, for creation and for
    cancellation alike and whether [publish] throws or not: the calls the
    handler makes put every publication after a write the database has
    accepted; whenever that write was accepted the answer is the success
    answer carrying the order and the order is in the table in its new
    state; and the answer and the table are the same as when the
    publication goes the other way. *)
Theorem publication_is_best_effort e w :
  App.reachable cfg w →
  (∀ body throws,
     let out := App.post_order cfg (with_publish throws e) body w in
     ∃ new,
       trace out.2 = trace w ++ new
       ∧ recorded_before_publish new
       ∧ (∀ id, DbCreate id true ∈ new →
            ∃ r items,
              out.1 = Normal (Response 201 (App.order_json r items))
              ∧ store out.2 !! id = Some r
              ∧ App.r_status r = Created)
       ∧ out.1 = (App.post_order cfg e body w).1
       ∧ store out.2 = store (App.post_order cfg e body w).2)
  ∧ (∀ orderId throws,
       let out := App.post_cancel cfg (with_publish throws e) orderId w in
       ∃ new,
         trace out.2 = trace w ++ new
         ∧ recorded_before_publish new
         ∧ (∀ id, DbUpdate id true ∈ new →
              ∃ r items,
                out.1 = Normal (Response 200 (App.order_json r items))
                ∧ store out.2 !! id = Some r
                ∧ App.r_status r = Cancelled)
         ∧ out.1 = (App.post_cancel cfg e orderId w).1
         ∧ store out.2 = store (App.post_cancel cfg e orderId w).2).
Proof.
  intros Hreach. apply app_reachable_tidy in Hreach. split.
  - intros body throws out. subst out. rewrite !app_post_order_run.
    destruct (checked body) as [[[u its] t]|].
    2: { exists []. cbn. rewrite app_nil_r. repeat split; try done.
         - apply recorded_before_publish_no_publish. intros ????. apply not_elem_of_nil.
         - intros id Hin. by apply not_elem_of_nil in Hin. }
    cbn zeta. change (fire_outcome (with_publish throws e)) with (fire_outcome e).
    destruct (match fire_outcome e with Resolved => true | Rejected _ => cached u w end).
    2: { exists [Fire u]. cbn. repeat split; try done.
         - apply recorded_before_publish_no_publish. intros ???? Hin.
           apply list_elem_of_singleton in Hin. done.
         - intros id Hin. apply list_elem_of_singleton in Hin. done. }
    rewrite !app_create_order_run. cbn zeta.
    change (db_down (with_publish throws e)) with (db_down e).
    change (nanoid (with_publish throws e)) with (nanoid e).
    destruct (db_down e || _).
    { exists [Fire u; DbCreate ("o_" +:+ nanoid e) false]. cbn.
      rewrite <- app_assoc. repeat split; try done.
      - apply recorded_before_publish_no_publish. intros ???? Hin.
        repeat (apply elem_of_cons in Hin as [Hin|Hin]; [done|]).
        by apply not_elem_of_nil in Hin.
      - intros id Hin.
        repeat (apply elem_of_cons in Hin as [Hin|Hin]; [done|]).
        by apply not_elem_of_nil in Hin. }
    eexists (Fire u :: DbCreate ("o_" +:+ nanoid e) true :: _). cbn.
    rewrite <- app_assoc. split; [reflexivity|]. repeat split.
    + apply (recorded_before_publish_after [Fire u] _ _ ("o_" +:+ nanoid e)); [|by left].
      intros ???? Hin. apply list_elem_of_singleton in Hin. done.
    + intros id Hin. eexists _, _. split; [reflexivity|].
      apply elem_of_cons in Hin as [Hin|Hin]; [done|].
      apply elem_of_cons in Hin as [Hin|Hin].
      * injection Hin as ->. by rewrite lookup_insert_eq.
      * unfold published in Hin. destruct (_ && _) in Hin.
        -- apply list_elem_of_singleton in Hin. done.
        -- by apply not_elem_of_nil in Hin.
  - intros orderId throws out. subst out. rewrite !app_post_cancel_run.
    change (db_down (with_publish throws e)) with (db_down e).
    destruct (db_down e).
    { exists [DbUpdate orderId false]. cbn. repeat split; try done.
      - apply recorded_before_publish_no_publish. intros ???? Hin.
        apply list_elem_of_singleton in Hin. done.
      - intros id Hin. apply list_elem_of_singleton in Hin. done. }
    destruct (store w !! orderId) as [r|] eqn:Hrow.
    2: { exists [DbUpdate orderId false]. cbn. repeat split; try done.
         - apply recorded_before_publish_no_publish. intros ???? Hin.
           apply list_elem_of_singleton in Hin. done.
         - intros id Hin. apply list_elem_of_singleton in Hin. done. }
    destruct (Hreach orderId r Hrow) as [j Hj]. cbn zeta. rewrite Hj.
    eexists (DbUpdate orderId true :: _). cbn. split; [reflexivity|]. repeat split.
    + apply (recorded_before_publish_after [] _ _ orderId); [|by right].
      intros ????. apply not_elem_of_nil.
    + intros id Hin. eexists _, _. split; [reflexivity|].
      apply elem_of_cons in Hin as [Hin|Hin].
      * injection Hin as ->. by rewrite lookup_insert_eq.
      * unfold published in Hin. destruct (_ && _) in Hin.
        -- apply list_elem_of_singleton in Hin. done.
        -- by apply not_elem_of_nil in Hin.
Qed.

End Publication.

Section Cancellation.
Context (cfg : config).

Lemma index_create_order_run e (u : json) (its : list json) (t : Z)
    (w : world (gmap string Index.order)) :
  Index.create_order cfg e u its t w
  = let id := "o_" +:+ nanoid e in
    let o := Index.Order id u its t Created (now e) in
    (Normal (Response 201 (Index.order_json o)),
     logged (published cfg e w (ORDER_CREATED cfg) (Serialized (Index.order_json o)))
       (stored (<[id := o]> (store w)) w)).
Proof.
  unfold Index.create_order, published. unfold bind, gets, put_store, ret. cbn.
  rewrite try_publish_logged. unfold published. reflexivity.
Qed.

Lemma index_post_order_run e body (w : world (gmap string Index.order)) :
  Index.post_order cfg e body w
  = match checked body with
    | None => (Normal bad_request, w)
    | Some (u, its, t) =>
        let admitted :=
          match fire_outcome e with
          | Resolved => true
          | Rejected _ => cached u w
          end in
        if admitted then Index.create_order cfg e u its t (logged [Fire u] w)
        else (Normal (Response 503 (error_body user_unknown)), logged [Fire u] w)
    end.
Proof.
  unfold Index.post_order. unfold bind at 1. rewrite read_body_checked.
  destruct (checked body) as [[[u its] t]|]; [|done].
  unfold bind. destruct (fire_outcome e) as [|err] eqn:Hfire.
  - by rewrite (validate_resolved e u w Hfire).
  - rewrite (validate_rejected e u w err Hfire).
    assert (cached u (logged [Fire u] w) = cached u w) as Hc by done.
    by destruct (cached u w).
Qed.

Lemma index_post_cancel_run e id (w : world (gmap string Index.order)) :
  Index.post_cancel cfg e id w
  = match store w !! id with
    | None => (Normal (Response 404 (error_body "Pedido não encontrado")), w)
    | Some o =>
        (Normal (Response 200 (Index.order_json (cancelled_order o))),
         logged (published cfg e w (ORDER_CANCELLED cfg) (cancelled_event id))
           (stored (<[id := cancelled_order o]> (store w)) w))
    end.
Proof.
  unfold Index.post_cancel, published, cancelled_order. unfold bind at 1, gets at 1.
  destruct (store w !! id) as [o|]; [|done].
  unfold bind, put_store, ret. cbn. rewrite try_publish_logged. unfold published. reflexivity.
Qed.

Lemma status_step_app_cancel e id (w : world (gmap string App.row)) id' (r : App.row) :
  store w !! id' = Some r →
  ∃ r', store (App.post_cancel cfg e id w).2 !! id' = Some r'
        ∧ status_step (App.r_status r) (App.r_status r').
Proof.
  intros Hrow. rewrite app_post_cancel_run.
  destruct (db_down e); [exists r; split; [done|by left]|].
  destruct (store w !! id) as [r0|] eqn:Hid; [|exists r; split; [done|by left]].
  assert (∃ r', <[id := cancelled_row e r0]> (store w) !! id' = Some r'
                ∧ status_step (App.r_status r) (App.r_status r')) as Hgoal.
  { destruct (decide (id = id')) as [->|Hne].
    - rewrite lookup_insert_eq. eexists. split; [done|].
      assert (r0 = r) as -> by congruence. cbn.
      destruct (App.r_status r); [by right|by left].
    - rewrite lookup_insert_ne by done. exists r. split; [done|by left]. }
  cbn zeta. by destruct (App.r_items r0).
Qed.

Lemma status_step_app_create e body (w : world (gmap string App.row)) id' (r : App.row) :
  store w !! id' = Some r →
  store (App.post_order cfg e body w).2 !! id' = Some r.
Proof.
  intros Hrow. rewrite app_post_order_run.
  destruct (checked body) as [[[u its] t]|]; [|done]. cbn zeta.
  destruct (match fire_outcome e with Resolved => true | Rejected _ => cached u w end);
    [|done].
  rewrite app_create_order_run. cbn zeta.
  destruct (db_down e); cbn [orb]; [done|].
  case_bool_decide as Hfresh; [done|]. cbn.
  rewrite lookup_insert_ne; [done|].
  intros <-. apply Hfresh. cbn. rewrite Hrow. eauto.
Qed.

Lemma status_step_refl (s : status) : status_step s s.
Proof. by left. Qed.

Lemma app_step_status i (w : world (gmap string App.row)) id (r : App.row) :
  store w !! id = Some r →
  ∃ r', store (App.step cfg i w) !! id = Some r'
        ∧ status_step (App.r_status r) (App.r_status r').
Proof.
  intros Hrow. destruct i as [e body|e orderId|msg|]; cbn [App.step].
  - exists r. split; [by apply status_step_app_create|apply status_step_refl].
  - by apply status_step_app_cancel.
  - exists r. destruct (consume_frame cfg msg w) as [-> _].
    split; [done|apply status_step_refl].
  - exists r. split; [done|apply status_step_refl].
Qed.

Lemma index_step_status i (w : world (gmap string Index.order)) id (o : Index.order) :
  Index.fresh_id i w →
  store w !! id = Some o →
  ∃ o', store (Index.step cfg i w) !! id = Some o'
        ∧ status_step (Index.o_status o) (Index.o_status o').
Proof.
  intros Hfresh Hrow. destruct i as [e body|e orderId|msg|]; cbn [Index.step].
  - exists o. split; [|apply status_step_refl].
    rewrite index_post_order_run.
    destruct (checked body) as [[[u its] t]|]; [|done]. cbn zeta.
    destruct (match fire_outcome e with Resolved => true | Rejected _ => cached u w end);
      [|done].
    rewrite index_create_order_run. cbn.
    rewrite lookup_insert_ne; [done|].
    intros <-. cbn in Hfresh. congruence.
  - rewrite index_post_cancel_run.
    destruct (store w !! orderId) as [o0|] eqn:Hid.
    2: { exists o. split; [done|apply status_step_refl]. }
    cbn. destruct (decide (orderId = id)) as [->|Hne].
    + rewrite lookup_insert_eq. eexists. split; [done|].
      assert (o0 = o) as -> by congruence. cbn.
      destruct (Index.o_status o); [by right|by left].
    + rewrite lookup_insert_ne by done. exists o. split; [done|apply status_step_refl].
  - exists o. destruct (consume_frame cfg msg w) as [-> _].
    split; [done|apply status_step_refl].
  - exists o. split; [done|apply status_step_refl].
Qed.

(** C6.  Cancelling an order id that is not in the store changes no order
    and publishes nothing, and the answer is 404.  In the in-memory
    variant the world is left exactly as it was; behind Prisma the only
    call made is the refused update, and the answer is 404 when the
    database answers at all. *)
Theorem cancel_unknown_order_not_found e orderId :
  (∀ w : world (gmap string Index.order),
     store w !! orderId = None →
     Index.post_cancel cfg e orderId w
     = (Normal (Response 404 (error_body "Pedido não encontrado")), w))
  ∧ (∀ w : world (gmap string App.row),
       store w !! orderId = None →
       let out := App.post_cancel cfg e orderId w in
       store out.2 = store w
       ∧ userCache out.2 = userCache w
       ∧ trace out.2 = trace w ++ [DbUpdate orderId false]
       ∧ (db_down e = false →
          out.1 = Normal (Response 404 (error_body "Pedido não encontrado")))).
Proof.
  split.
  - intros w Hnone. by rewrite index_post_cancel_run, Hnone.
  - intros w Hnone out. subst out. rewrite app_post_cancel_run, Hnone.
    by destruct (db_down e).
Qed.

(** C5, as the code has it.  Whatever happens to the service, an order's
    status stays as it is or goes from [created] to [cancelled], so a
    cancelled order stays cancelled (in the in-memory variant as long as
    [nanoid] does not hand out an identifier in use).  Cancelling an order
    that is already cancelled is handled like any other cancellation: the
    answer is 200 with the order, and the order-cancelled event is
    published once more when the channel is there and [publish] does not
    throw; the in-memory order is left as it is, the row behind Prisma
    gets a new [updatedAt]. *)
Theorem status_only_moves_to_cancelled :
  (∀ i (w : world (gmap string App.row)) id (r : App.row),
     store w !! id = Some r →
     ∃ r', store (App.step cfg i w) !! id = Some r'
           ∧ status_step (App.r_status r) (App.r_status r')
           ∧ (App.r_status r = Cancelled → App.r_status r' = Cancelled))
  ∧ (∀ i (w : world (gmap string Index.order)) id (o : Index.order),
       Index.fresh_id i w →
       store w !! id = Some o →
       ∃ o', store (Index.step cfg i w) !! id = Some o'
             ∧ status_step (Index.o_status o) (Index.o_status o')
             ∧ (Index.o_status o = Cancelled → Index.o_status o' = Cancelled))
  ∧ (∀ e (w : world (gmap string Index.order)) id (o : Index.order),
       store w !! id = Some o →
       Index.o_status o = Cancelled →
       Index.post_cancel cfg e id w
       = (Normal (Response 200 (Index.order_json o)),
          logged (published cfg e w (ORDER_CANCELLED cfg) (cancelled_event id)) w))
  ∧ (∀ e (w : world (gmap string App.row)) id (r : App.row) j,
       store w !! id = Some r →
       App.r_status r = Cancelled →
       App.r_items r = Serialized j →
       db_down e = false →
       App.post_cancel cfg e id w
       = (Normal (Response 200 (App.order_json (cancelled_row e r) j)),
          logged (DbUpdate id true
                  :: published cfg e w (ORDER_CANCELLED cfg) (cancelled_event id))
            (stored (<[id := cancelled_row e r]> (store w)) w))).
Proof.
  repeat split.
  - intros i w id r Hrow.
    destruct (app_step_status i w id r Hrow) as (r' & Hr' & Hstep).
    exists r'. repeat split; [done..|].
    intros Hc. destruct Hstep as [->|[Hs _]]; congruence.
  - intros i w id o Hfresh Hrow.
    destruct (index_step_status i w id o Hfresh Hrow) as (o' & Ho' & Hstep).
    exists o'. repeat split; [done..|].
    intros Hc. destruct Hstep as [->|[Hs _]]; congruence.
  - intros e w id o Hrow Hc. rewrite index_post_cancel_run, Hrow.
    assert (cancelled_order o = o) as ->.
    { destruct o. cbn in Hc. subst. reflexivity. }
    rewrite insert_id by done. by destruct w.
  - intros e w id r j Hrow Hc Hj Hup.
    by rewrite app_post_cancel_run, Hup, Hrow, Hj.
Qed.

End Cancellation.

(** ** The circuit breaker *)

Section BreakerProperties.
Context (cfg : config) (rolling : Z) (volume : nat).

Lemma trailing_length t (w : list (Z * bool)) :
  length (CircuitBreaker.trailing rolling t w) ≤ length w.
Proof. unfold CircuitBreaker.trailing. apply length_filter. Qed.

(** While fewer calls have been made than the minimum volume, the breaker
    stays closed. *)
Lemma run_below_floor_closed (calls : list (Z * CircuitBreaker.upstream)) b :
  CircuitBreaker.state b = CircuitBreaker.Closed →
  length (CircuitBreaker.window b) + length calls < volume →
  CircuitBreaker.state
    (CircuitBreaker.run (CircuitBreaker.circuitBreakerOptions cfg) rolling volume calls b)
  = CircuitBreaker.Closed.
Proof.
  revert b. induction calls as [|[t u] calls IH]; intros b Hclosed Hfew; [done|].
  cbn [CircuitBreaker.run]. cbn [length] in Hfew.
  pose proof (trailing_length t (CircuitBreaker.window b)) as Hlen.
  unfold CircuitBreaker.call, CircuitBreaker.advance. rewrite Hclosed. cbn zeta.
  rewrite Hclosed.
  assert (CircuitBreaker.floor_reached volume
            (CircuitBreaker.trailing rolling t (CircuitBreaker.window b)
             ++ [(t, CircuitBreaker.failed (CircuitBreaker.circuitBreakerOptions cfg) u)])
          = false) as Hfloor.
  { apply bool_decide_eq_false. rewrite length_app. cbn. lia. }
  rewrite Hfloor, andb_false_r. cbn [snd]. apply IH; [done|].
  cbn. rewrite length_app. cbn. lia.
Qed.

(** C3.  The breaker goes from closed to open only when, over the trailing
    window with the call at hand counted in, the failure percentage meets
    or exceeds the 50 percent the service configures and the number of
    calls has reached the minimum volume; so it never opens on fewer calls
    than the minimum volume, and from start-up it is still closed after
    any run of fewer calls than that. *)
Theorem breaker_opens_only_over_threshold_and_floor :
  (∀ t u b since,
     CircuitBreaker.state b = CircuitBreaker.Closed →
     CircuitBreaker.state
       (CircuitBreaker.call (CircuitBreaker.circuitBreakerOptions cfg) rolling volume t u b).2
     = CircuitBreaker.Open since →
     let w :=
       CircuitBreaker.window
         (CircuitBreaker.call (CircuitBreaker.circuitBreakerOptions cfg) rolling volume
            t u b).2 in
     (50 * Z.of_nat (length w) ≤ 100 * Z.of_nat (CircuitBreaker.failures w))%Z
     ∧ volume ≤ length w
     ∧ ¬ length w < volume)
  ∧ (∀ calls,
       length calls < volume →
       CircuitBreaker.state
         (CircuitBreaker.run (CircuitBreaker.circuitBreakerOptions cfg) rolling volume calls
            CircuitBreaker.initial)
       = CircuitBreaker.Closed).
Proof.
  split.
  - intros t u b since Hclosed. unfold CircuitBreaker.call, CircuitBreaker.advance.
    rewrite Hclosed. cbn zeta. rewrite Hclosed.
    destruct (CircuitBreaker.over_threshold _ _ && CircuitBreaker.floor_reached _ _)
      eqn:Hrule; cbn; [|done].
    intros _. apply andb_true_iff in Hrule as [Hover Hfloor].
    apply bool_decide_eq_true in Hover, Hfloor. cbn in Hover.
    repeat split; [done..|lia].
  - intros calls Hfew. by apply run_below_floor_closed.
Qed.

End BreakerProperties.

(** ** The properties at concrete requests *)

(** C10 at a body whose [items] is a string. *)
Lemma invalid_body_rejected_without_effect_witness :
  App.post_order default_config calm items_not_an_array App.initial
  = (Normal bad_request, App.initial)
  ∧ res_status bad_request = 400.
Proof.
  apply (invalid_body_rejected_without_effect default_config calm items_not_an_array
           App.initial).
  right; left. reflexivity.
Defined.

(** C1 at a breaker that rejects, for a user the cache knows. *)
Lemma validation_verdict_witness :
  validate outage (JStr "u1") app_knows_u1
  = (Normal Admit, logged [Fire (JStr "u1")] app_knows_u1).
Proof.
  destruct (validation_verdict default_config outage sample_request (JStr "u1")
              sample_items 150 app_knows_u1 eq_refl) as (_ & Hhit & _).
  apply (Hhit (JsError None CIRCUIT_OPEN) (KStr "u1") ana); [reflexivity..|].
  vm_compute. reflexivity.
Defined.

(** C7 at a breaker that rejects, for a user the cache does not know. *)
Lemma rejected_creation_leaves_store_and_bus_witness :
  ∃ w',
    App.post_order default_config outage unknown_user_request app_knows_u1
    = (Normal (Response 503 (error_body user_unknown)), w')
    ∧ store w' = store app_knows_u1
    ∧ userCache w' = userCache app_knows_u1
    ∧ trace w' = trace app_knows_u1 ++ [Fire (JStr "u9")].
Proof.
  apply (rejected_creation_leaves_store_and_bus default_config outage unknown_user_request
           (JStr "u9") sample_items 150 app_knows_u1
           (JsError None CIRCUIT_OPEN)); [reflexivity..|].
  intros k [= <-]. vm_compute. reflexivity.
Defined.

(** C4 as stated fails: a request with total -5 for a user the registry
    confirms is answered 201 and its row is stored with that total. *)
Lemma negative_total_is_persisted :
  let out := App.post_order default_config calm negative_total_request App.initial in
  out.1 = Normal (Response 201 (App.order_json (new_row calm (JStr "u1") [] (-5)) (JArr [])))
  ∧ store out.2 !! "o_abc123" = Some (new_row calm (JStr "u1") [] (-5))
  ∧ (App.r_total (new_row calm (JStr "u1") [] (-5)) < 0)%Z.
Proof. vm_compute. repeat split; reflexivity. Qed.

(** C4, as the code has it, at the request with total -5. *)
Lemma persisted_total_is_the_request_total_witness :
  store App.initial !! "o_abc123" = Some (new_row calm (JStr "u1") [] (-5))
  ∨ (store App.initial !! "o_abc123" = None
     ∧ field negative_total_request "total" = Some (JNum (-5))
     ∧ field negative_total_request "userId" = Some (JStr "u1")
     ∧ (∃ its, field negative_total_request "items" = Some (JArr its)
               ∧ Serialized (JArr []) = JSON_stringify (JArr its))
     ∧ Created = Created).
Proof.
  apply (persisted_total_is_the_request_total default_config calm negative_total_request
           App.initial "o_abc123" (new_row calm (JStr "u1") [] (-5))).
  vm_compute. reflexivity.
Defined.

(** C8 at the cancellation of a stored order: the answer is the same
    whether [publish] throws or not. *)
Lemma publication_is_best_effort_witness :
  (App.post_cancel default_config (with_publish true calm) "o_abc123"
     (App.step default_config (App.Create calm sample_request)
        (App.step default_config App.Connect App.initial))).1
  = (App.post_cancel default_config calm "o_abc123"
       (App.step default_config (App.Create calm sample_request)
          (App.step default_config App.Connect App.initial))).1.
Proof.
  destruct (publication_is_best_effort default_config calm
              (App.step default_config (App.Create calm sample_request)
                 (App.step default_config App.Connect App.initial))) as [_ Hcancel].
  { repeat apply App.reachable_step. apply App.reachable_initial. }
  destruct (Hcancel "o_abc123" true) as (new & _ & _ & _ & Hsame & _).
  exact Hsame.
Defined.

(** C5 as stated fails: cancelling an order that is already cancelled is
    answered 200 and publishes order-cancelled once more, in both variants;
    behind Prisma the row also gets the new [updatedAt]. *)
Lemma cancelling_twice_succeeds_and_publishes_again :
  (Index.o_status <$> store index_cancelled_once !! "o_abc123" = Some Cancelled
   ∧ (Index.post_cancel default_config calm "o_abc123" index_cancelled_once).1
     = Normal (Response 200 (Index.order_json sample_order_cancelled))
   ∧ trace (Index.post_cancel default_config calm "o_abc123" index_cancelled_once).2
     = trace index_cancelled_once
       ++ [Publish "app.topic" "order.cancelled" (cancelled_event "o_abc123") true])
  ∧ (App.r_status <$> store app_cancelled_once !! "o_abc123" = Some Cancelled
     ∧ (App.post_cancel default_config next_day "o_abc123" app_cancelled_once).1
       = Normal (Response 200 (App.order_json sample_row_cancelled (JArr sample_items)))
     ∧ store (App.post_cancel default_config next_day "o_abc123" app_cancelled_once).2
       !! "o_abc123" = Some sample_row_cancelled
     ∧ trace (App.post_cancel default_config next_day "o_abc123" app_cancelled_once).2
       = trace app_cancelled_once
         ++ [DbUpdate "o_abc123" true;
             Publish "app.topic" "order.cancelled" (cancelled_event "o_abc123") true]).
Proof. repeat split; vm_compute; reflexivity. Qed.

(** C5, as the code has it, at the second cancellation of an order. *)
Lemma status_only_moves_to_cancelled_witness :
  Index.post_cancel default_config calm "o_abc123" index_cancelled_once
  = (Normal (Response 200 (Index.order_json sample_order_cancelled)),
     logged (published default_config calm index_cancelled_once "order.cancelled"
               (cancelled_event "o_abc123")) index_cancelled_once).
Proof.
  destruct (status_only_moves_to_cancelled default_config) as (_ & _ & Hagain & _).
  apply Hagain; vm_compute; reflexivity.
Defined.

(** C6 at an id no order has. *)
Lemma cancel_unknown_order_not_found_witness :
  Index.post_cancel default_config calm "o_nobody" index_cancelled_once
  = (Normal (Response 404 (error_body "Pedido não encontrado")), index_cancelled_once).
Proof.
  destruct (cancel_unknown_order_not_found default_config calm "o_nobody") as [Hindex _].
  apply Hindex. vm_compute. reflexivity.
Defined.

(** C3 at the first call, failing, with a floor of one call. *)
Lemma breaker_opens_only_over_threshold_and_floor_witness :
  let w :=
    CircuitBreaker.window
      (CircuitBreaker.call (CircuitBreaker.circuitBreakerOptions default_config) 10000 1
         0 (CircuitBreaker.Upstream false 12) CircuitBreaker.initial).2 in
  (50 * Z.of_nat (length w) ≤ 100 * Z.of_nat (CircuitBreaker.failures w))%Z
  ∧ 1 ≤ length w
  ∧ ¬ length w < 1.
Proof.
  apply (proj1 (breaker_opens_only_over_threshold_and_floor default_config 10000 1) 0%Z
           (CircuitBreaker.Upstream false 12) CircuitBreaker.initial 0%Z); reflexivity.
Defined.

(** ** Further properties of the code *)

Section Further.
Context {Store : Type} (cfg : config).
Implicit Types (w : world Store) (m : message) (e : env).

(** X1.  A delivery that decodes and whose routing key is neither
    user-created nor user-updated is acknowledged and changes nothing
    else. *)
Theorem unknown_event_kind_is_acknowledged m w (user : json) :
  JSON_parse (content m) = Normal user →
  routingKey m ≠ ROUTING_KEY_USER_CREATED cfg →
  routingKey m ≠ ROUTING_KEY_USER_UPDATED cfg →
  consume cfg (Some m) w = (Normal (), logged [Ack m] w).
Proof.
  intros Hparse Hc Hu. unfold consume. run_monad. rewrite Hparse. cbn.
  rewrite bool_decide_false by (intros [?|?]; done). reflexivity.
Qed.

(** X2.  A user-created or user-updated delivery whose payload is the
    JSON text [null] decodes, fails on [user.id], and is rejected without
    requeue like a payload that does not decode; the cache is as
    before. *)
Theorem null_snapshot_is_discarded m w :
  content m = Serialized JNull →
  routingKey m = ROUTING_KEY_USER_CREATED cfg ∨ routingKey m = ROUTING_KEY_USER_UPDATED cfg →
  consume cfg (Some m) w = (Normal (), logged [Nack m false false] w).
Proof.
  intros Hnull Hkind. unfold consume. run_monad. rewrite Hnull. cbn.
  rewrite bool_decide_true by done. reflexivity.
Qed.

(** X3.  Once a registry-change event for a user has been consumed, a
    failed live check for that user still yields [Admit]. *)
Theorem cached_user_is_admitted_during_outage m w e uid (p : json) err :
  event_of cfg m = Some (uid, p) →
  fire_outcome e = Rejected err →
  validate e (JStr uid) (deliver cfg (Some m) w)
  = (Normal Admit, logged [Fire (JStr uid)] (deliver cfg (Some m) w)).
Proof.
  intros Hm Hfire. rewrite (validate_rejected e _ _ err Hfire).
  assert (cached (JStr uid) (deliver cfg (Some m) w) = true) as ->; [|done].
  apply (cached_hit (JStr uid) (KStr uid) p); [done|].
  rewrite (deliver_registry_event cfg m w uid p Hm). cbn.
  by rewrite lookup_insert_eq.
Qed.

(** X4.  A user-created or user-updated delivery whose user [id] is an
    object or an array is cached under a reference of its own: each
    delivery opens one more entry. *)
Theorem object_keyed_event_opens_an_entry m w fields (v : json) :
  routingKey m = ROUTING_KEY_USER_CREATED cfg ∨ routingKey m = ROUTING_KEY_USER_UPDATED cfg →
  content m = Serialized (JObj fields) →
  assoc "id" fields = Some v →
  prim_key (Some v) = None →
  deliver cfg (Some m) w
  = World (<[KRef (refs w) := JObj fields]> (userCache w)) (S (refs w)) (amqp w) (store w)
      (trace w ++ [Ack m]).
Proof.
  intros Hkind Hc Hid Hobj. unfold deliver, consume, userCache_set.
  unfold try_catch, bind, lift, ret, emit. rewrite Hc. cbn [JSON_parse].
  rewrite bool_decide_true by done. cbn [get_prop]. rewrite Hid, Hobj. reflexivity.
Qed.

End Further.

Section FurtherHandlers.
Context (cfg : config).


End FurtherHandlers.

(** X1 at an order-created delivery. *)
Lemma unknown_event_kind_is_acknowledged_witness :
  consume default_config (Some order_event) (empty_world ())
  = (Normal (), logged [Ack order_event] (empty_world ())).
Proof.
  apply (unknown_event_kind_is_acknowledged default_config order_event (empty_world ()) ana);
    [reflexivity|vm_compute; discriminate..].
Defined.

(** X2 at a user-updated delivery of [null]. *)
Lemma null_snapshot_is_discarded_witness :
  consume default_config (Some null_event) (empty_world ())
  = (Normal (), logged [Nack null_event false false] (empty_world ())).
Proof.
  apply (null_snapshot_is_discarded default_config null_event (empty_world ()));
    [reflexivity|right; reflexivity].
Defined.

(** X3 at the update of u1 followed by a rejected live check. *)
Lemma cached_user_is_admitted_during_outage_witness :
  validate outage (JStr "u1")
    (deliver default_config (Some (Message (Serialized ana) "user.updated")) App.initial)
  = (Normal Admit,
     logged [Fire (JStr "u1")]
       (deliver default_config (Some (Message (Serialized ana) "user.updated")) App.initial)).
Proof.
  apply (cached_user_is_admitted_during_outage default_config
           (Message (Serialized ana) "user.updated") App.initial outage "u1" ana
           (JsError None CIRCUIT_OPEN)); reflexivity.
Defined.

(** X4 at a user whose [id] is the empty object. *)
Lemma object_keyed_event_opens_an_entry_witness :
  deliver default_config (Some object_keyed_event) (empty_world ())
  = World (<[KRef 0 := object_keyed]> ∅) 1 true () [Ack object_keyed_event].
Proof.
  apply (object_keyed_event_opens_an_entry default_config object_keyed_event
           (empty_world ()) [("id", JObj []); ("name", JStr "Ana")] (JObj []));
    [left; reflexivity|reflexivity..].
Defined.

(** ** Fetching with retries *)

Section Retries.
Context (network : nat → completion Net.http_response).
Context (url : string) (timeout : Z).

Lemma failed_rounds_S delay k :
  failed_rounds url timeout delay (S k)
  = Net.Fetch url timeout :: Net.Wait delay :: failed_rounds url timeout delay k.
Proof. reflexivity. Qed.

Lemma fetches_failed_rounds delay k :
  fetches (failed_rounds url timeout delay k) = k.
Proof.
  induction k as [|k IH]; [done|].
  rewrite failed_rounds_S. unfold fetches in *.
  rewrite filter_cons_True by done. rewrite filter_cons_False by done.
  cbn. by rewrite IH.
Qed.

Lemma retry_loop_exhausted retries delay n i :
  (∀ j, j < n → unsuccessful (network (i + j))) →
  Net.retry_loop network url timeout retries delay n i
  = (Throw (Net.retries_exhausted url retries), failed_rounds url timeout delay n).
Proof.
  revert i. induction n as [|n IH]; intros i Hbad; [done|].
  cbn [Net.retry_loop]. unfold Net.fetchWithTimeout.
  pose proof (Hbad 0 ltac:(lia)) as H0. rewrite Nat.add_0_r in H0.
  rewrite (IH (S i)).
  2: { intros j Hj. replace (S i + j) with (i + S j) by lia. apply Hbad. lia. }
  rewrite failed_rounds_S.
  destruct (network i) as [r|err]; cbn in H0 |- *; [by rewrite H0|done].
Qed.

Lemma retry_loop_first_success retries delay n i k r :
  k < n →
  (∀ j, j < k → unsuccessful (network (i + j))) →
  network (i + k) = Normal r →
  Net.ok r = true →
  Net.retry_loop network url timeout retries delay n i
  = (Normal r, failed_rounds url timeout delay k ++ [Net.Fetch url timeout]).
Proof.
  revert n i. induction k as [|k IH]; intros n i Hk Hbad Hgood Hok.
  - destruct n as [|n]; [lia|]. cbn [Net.retry_loop]. unfold Net.fetchWithTimeout.
    rewrite Nat.add_0_r in Hgood. by rewrite Hgood, Hok.
  - destruct n as [|n]; [lia|]. cbn [Net.retry_loop]. unfold Net.fetchWithTimeout.
    pose proof (Hbad 0 ltac:(lia)) as H0. rewrite Nat.add_0_r in H0.
    rewrite (IH n (S i)); [|lia| |by replace (S i + k) with (i + S k) by lia|done].
    2: { intros j Hj. replace (S i + j) with (i + S j) by lia. apply Hbad. lia. }
    rewrite failed_rounds_S.
    destruct (network i) as [r0|err]; cbn in H0 |- *; [by rewrite H0|done].
Qed.

(** X6.  [fetchWithRetry] returns the first ok response among its first
    [retries] fetches: when the fetch number [k] is the first that yields
    one, the call resolves with that response after exactly [k + 1]
    fetches of the url under the timeout and [k] waits of [delay], one
    after each fetch that did not succeed. *)
Theorem fetchWithRetry_returns_first_ok_response (retries delay : option Z) k r :
  (Z.of_nat k < default 3 retries)%Z →
  (∀ j, j < k → unsuccessful (network j)) →
  network k = Normal r →
  Net.ok r = true →
  Net.fetchWithRetry network url timeout retries delay
  = (Normal r,
     failed_rounds url timeout (default 300%Z delay) k ++ [Net.Fetch url timeout])
  ∧ fetches (failed_rounds url timeout (default 300%Z delay) k ++ [Net.Fetch url timeout])
    = S k.
Proof.
  intros Hk Hbad Hgood Hok. split.
  - unfold Net.fetchWithRetry. apply retry_loop_first_success; [lia|done..].
  - unfold fetches. rewrite filter_app, length_app.
    fold (fetches (failed_rounds url timeout (default 300%Z delay) k)).
    rewrite fetches_failed_rounds. rewrite filter_cons_True by done. cbn. lia.
Qed.

(** X7.  When none of the first [retries] fetches yields an ok response,
    [fetchWithRetry] throws the error that names the url and the number
    of retries, after exactly [retries] fetches, each followed by a wait
    of [delay], the last one too; with [retries] zero or negative it
    throws without fetching at all. *)
Theorem fetchWithRetry_gives_up_after_retries (retries delay : option Z) :
  (∀ j, (Z.of_nat j < default 3 retries)%Z → unsuccessful (network j)) →
  Net.fetchWithRetry network url timeout retries delay
  = (Throw (Net.retries_exhausted url (default 3%Z retries)),
     failed_rounds url timeout (default 300%Z delay) (Z.to_nat (default 3%Z retries)))
  ∧ fetches (failed_rounds url timeout (default 300%Z delay) (Z.to_nat (default 3%Z retries)))
    = Z.to_nat (default 3%Z retries)
  ∧ ((default 3 retries ≤ 0)%Z →
     failed_rounds url timeout (default 300%Z delay) (Z.to_nat (default 3%Z retries)) = []).
Proof.
  intros Hbad. split; [|split].
  - unfold Net.fetchWithRetry. apply retry_loop_exhausted.
    intros j Hj. apply Hbad. lia.
  - apply fetches_failed_rounds.
  - intros Hneg. by replace (Z.to_nat (default 3%Z retries)) with 0 by lia.
Qed.

End Retries.

(** X6 at the defaults, the third fetch being the first that succeeds. *)
Lemma fetchWithRetry_returns_first_ok_response_witness :
  Net.fetchWithRetry flaky_network "http://localhost:3001/u1" 2000 None None
  = (Normal (Net.HttpResponse true 200),
     failed_rounds "http://localhost:3001/u1" 2000 300 2
     ++ [Net.Fetch "http://localhost:3001/u1" 2000])
  ∧ fetches (failed_rounds "http://localhost:3001/u1" 2000 300 2
             ++ [Net.Fetch "http://localhost:3001/u1" 2000]) = 3.
Proof.
  apply (fetchWithRetry_returns_first_ok_response flaky_network "http://localhost:3001/u1"
           2000 None None 2 (Net.HttpResponse true 200)); [reflexivity| |reflexivity..].
  intros [|[|j]] Hj; [exact I|reflexivity|lia].
Defined.

(** X7 at the defaults, against a network that never answers. *)
Lemma fetchWithRetry_gives_up_after_retries_witness :
  Net.fetchWithRetry dead_network "http://localhost:3001/u1" 2000 None None
  = (Throw (Net.retries_exhausted "http://localhost:3001/u1" 3),
     failed_rounds "http://localhost:3001/u1" 2000 300 3)
  ∧ fetches (failed_rounds "http://localhost:3001/u1" 2000 300 3) = 3
  ∧ ((3 ≤ 0)%Z → failed_rounds "http://localhost:3001/u1" 2000 300 3 = []).
Proof.
  apply (fetchWithRetry_gives_up_after_retries dead_network "http://localhost:3001/u1" 2000
           None None).
  intros j _. exact I.
Defined.

(** ** Connecting to the broker *)

Section Connecting.
Context (broker : nat → bool).

Lemma backoff_S delay k : backoff delay (S k) = delay :: backoff (delay * 2) k.
Proof.
  unfold backoff. cbn [seq fmap list_fmap]. f_equal; [cbn; lia|].
  rewrite <- fmap_S_seq, <- list_fmap_compose. apply list_fmap_ext.
  intros _ j _. cbn. rewrite Nat2Z.inj_succ, Z.pow_succ_r by lia. lia.
Qed.

Lemma total_backoff delay k : total (backoff delay k) = (delay * (2 ^ Z.of_nat k - 1))%Z.
Proof.
  revert delay. induction k as [|k IH]; intros delay; [cbn; lia|].
  rewrite backoff_S. cbn [total foldr]. fold (total (backoff (delay * 2) k)).
  rewrite IH, Nat2Z.inj_succ, Z.pow_succ_r by lia. lia.
Qed.

(** What a run of [connectAMQP] does: it stops at the first attempt that
    succeeds, or after the last retry. *)
Lemma connectAMQP_run retries i delay :
  ∃ k,
    k ≤ retries
    ∧ (∀ j, j < k → broker (i + j) = false)
    ∧ Users.connectAMQP broker i retries delay = (broker (i + k), backoff delay k)
    ∧ (broker (i + k) = false → k = retries).
Proof.
  revert i delay. induction retries as [|r IH]; intros i delay.
  - exists 0. rewrite Nat.add_0_r. cbn. destruct (broker i); repeat split; (lia || done).
  - cbn [Users.connectAMQP]. destruct (broker i) eqn:Hi.
    + exists 0. rewrite Nat.add_0_r, Hi. repeat split; (lia || done).
    + destruct (IH (S i) (delay * 2)%Z) as (k & Hk & Hfail & Hrun & Hlast).
      exists (S k). rewrite Hrun, backoff_S.
      replace (i + S k) with (S i + k) by lia.
      split; [lia|]. split; [|split; [done|]].
      * intros [|j] Hj; [by rewrite Nat.add_0_r|].
        replace (i + S j) with (S i + j) by lia. apply Hfail. lia.
      * intros Hbk. by rewrite (Hlast Hbk).
Qed.

(** X8.  The waits of [connectAMQP] double from one to the next, starting
    at [delay]: it waits at most [retries] times, after [k] waits it has
    waited [delay * (2^k - 1)] in all, and it has then made [k + 1]
    attempts, all but possibly the last one failed.  At start-up, with 5
    retries from 3000 ms, that is never more than 93 seconds. *)
Theorem connectAMQP_backs_off_exponentially retries delay :
  (∃ k,
     k ≤ retries
     ∧ (Users.connectAMQP broker 0 retries delay).2 = backoff delay k
     ∧ total (Users.connectAMQP broker 0 retries delay).2
       = (delay * (2 ^ Z.of_nat k - 1))%Z
     ∧ (∀ j, j < k → broker j = false))
  ∧ (total (Users.connect_at_startup broker).2 ≤ 93000)%Z.
Proof.
  split.
  - destruct (connectAMQP_run retries 0 delay) as (k & Hk & Hfail & Hrun & _).
    exists k. rewrite Hrun. cbn [snd]. repeat split; [done|apply total_backoff|done].
  - unfold Users.connect_at_startup.
    destruct (connectAMQP_run 5 0 3000%Z) as (k & Hk & _ & Hrun & _).
    rewrite Hrun. cbn [snd]. rewrite total_backoff.
    assert (2 ^ Z.of_nat k ≤ 2 ^ 5)%Z by (apply Z.pow_le_mono_r; lia). lia.
Qed.

(** X9.  [connectAMQP] ends with a channel exactly when one of its first
    [retries + 1] attempts succeeds, and then it has stopped at the first
    that does; when none does it has made all [retries + 1] attempts and
    [retries] waits, and leaves [amqp] without a channel. *)
Theorem connectAMQP_connects_at_first_success retries delay :
  ((Users.connectAMQP broker 0 retries delay).1 = true
   ↔ ∃ k, k ≤ retries ∧ broker k = true)
  ∧ (∀ k, k ≤ retries → broker k = true → (∀ j, j < k → broker j = false) →
       Users.connectAMQP broker 0 retries delay = (true, backoff delay k))
  ∧ ((∀ k, k ≤ retries → broker k = false) →
       Users.connectAMQP broker 0 retries delay = (false, backoff delay retries)).
Proof.
  destruct (connectAMQP_run retries 0 delay) as (k & Hk & Hfail & Hrun & Hlast).
  cbn in Hfail, Hrun, Hlast. split; [|split].
  - rewrite Hrun. cbn [fst]. split; [eauto|].
    intros (k' & Hk' & Hgood). destruct (broker k) eqn:Hbk; [done|].
    rewrite (Hlast eq_refl) in *.
    destruct (decide (k' = retries)) as [->|Hne]; [congruence|].
    rewrite Hfail in Hgood by lia. done.
  - intros k' Hk' Hgood Hfirst. rewrite Hrun.
    assert (k = k') as ->; [|by rewrite Hgood].
    destruct (Nat.lt_trichotomy k k') as [Hlt|[->|Hgt]]; [|done|].
    + rewrite (Hfirst k Hlt) in Hlast. rewrite (Hlast eq_refl) in Hlt. lia.
    + rewrite (Hfail k' Hgt) in Hgood. done.
  - intros Hnone. rewrite Hrun, (Hnone k Hk). by rewrite (Hlast (Hnone k Hk)).
Qed.

End Connecting.

(** ** The users service *)

Section UsersProperties.
Context (cfg : config).
Implicit Types (w : world (gmap string Users.user)) (e : env).

Lemma read_user_body_fields body w :
  Users.read_user_body body w = (Normal (user_fields body), w).
Proof.
  unfold Users.read_user_body, user_fields, field.
  destruct body as [[|[]|n|s| |fields]|]; run_monad; try reflexivity.
  all: repeat case_match; by simplify_eq/=.
Qed.

Lemma users_post_user_run e generated body w :
  Users.post_user cfg e generated body w
  = match user_fields body with
    | None => (Normal Users.fields_required, w)
    | Some (name, email) =>
        if db_down e
        then (Normal (Response 500 (error_body "Failed to create user")),
              logged [DbCreate generated false] w)
        else
          match name, email with
          | JStr n, JStr m =>
              if Users.email_taken (store w) generated m
                 || bool_decide (is_Some (store w !! generated))
              then (Normal (Response 409 (error_body "Email already exists")),
                    logged [DbCreate generated false] w)
              else
                let u := Users.User generated n m (now e) in
                (Normal (Response 201 (Users.user_json u)),
                 logged (DbCreate generated true
                         :: published cfg e w (ROUTING_KEY_USER_CREATED cfg)
                              (Serialized (Users.user_json u)))
                   (stored (<[generated := u]> (store w)) w))
          | _, _ =>
              (Normal (Response 500 (error_body "Failed to create user")),
               logged [DbCreate generated false] w)
          end
    end.
Proof.
  unfold Users.post_user. unfold bind at 1. rewrite read_user_body_fields.
  destruct (user_fields body) as [[name email]|]; [|done].
  unfold Users.prisma_user_create. destruct (db_down e); [by run_monad|].
  destruct name as [| | |n| |]; try by run_monad.
  destruct email as [| | |m| |]; try by run_monad.
  unfold try_catch at 1, bind at 1, bind at 1, gets at 1.
  destruct (Users.email_taken (store w) generated m
            || bool_decide (is_Some (store w !! generated))); [by run_monad|].
  unfold bind, put_store, emit, ret. cbn.
  rewrite try_publish_logged. unfold published, logged, stored. cbn.
  destruct (amqp w && negb (publish_throws e)); cbn.
  - by rewrite <- app_assoc.
  - by rewrite app_nil_r.
Qed.

Lemma users_put_user_run e id body w :
  Users.put_user cfg e id body w
  = match user_fields body with
    | None => (Normal Users.fields_required, w)
    | Some (name, email) =>
        if db_down e
        then (Normal (Response 500 (error_body "Failed to update user")),
              logged [DbUpdate id false] w)
        else
          match name, email with
          | JStr n, JStr m =>
              match store w !! id with
              | None =>
                  (Normal (Response 404 (error_body "User not found")),
                   logged [DbUpdate id false] w)
              | Some _ =>
                  if Users.email_taken (store w) id m
                  then (Normal (Response 409 (error_body "Email already exists")),
                        logged [DbUpdate id false] w)
                  else
                    let u := Users.User id n m (now e) in
                    (Normal (Response 200 (Users.user_json u)),
                     logged (DbUpdate id true
                             :: published cfg e w (ROUTING_KEY_USER_UPDATED cfg)
                                  (Serialized (Users.user_json u)))
                       (stored (<[id := u]> (store w)) w))
              end
          | _, _ =>
              (Normal (Response 500 (error_body "Failed to update user")),
               logged [DbUpdate id false] w)
          end
    end.
Proof.
  unfold Users.put_user. unfold bind at 1. rewrite read_user_body_fields.
  destruct (user_fields body) as [[name email]|]; [|done].
  unfold Users.prisma_user_update. destruct (db_down e); [by run_monad|].
  destruct name as [| | |n| |]; try by run_monad.
  destruct email as [| | |m| |]; try by run_monad.
  unfold try_catch at 1, bind at 1, bind at 1, gets at 1.
  destruct (store w !! id) as [u0|]; [|by run_monad].
  destruct (Users.email_taken (store w) id m); [by run_monad|].
  unfold bind, put_store, emit, ret. cbn.
  rewrite try_publish_logged. unfold published, logged, stored. cbn.
  destruct (amqp w && negb (publish_throws e)); cbn.
  - by rewrite <- app_assoc.
  - by rewrite app_nil_r.
Qed.

Lemma user_fields_incomplete body :
  truthy (field body "name") = false ∨ truthy (field body "email") = false →
  user_fields body = None.
Proof.
  unfold user_fields. intros [H|H].
  - destruct (field body "name"); [|done]. rewrite H. by case_match.
  - destruct (field body "name"); [|done]. destruct (field body "email"); [|done].
    by rewrite H, andb_false_r.
Qed.

(** X10.  A request to create or to update a user whose body lacks a
    truthy [name] or a truthy [email] is answered 400 and leaves the users
    service exactly as it was: the database is not called and nothing is
    published. *)
Theorem users_reject_incomplete_bodies e generated id body w :
  truthy (field body "name") = false ∨ truthy (field body "email") = false →
  Users.post_user cfg e generated body w = (Normal Users.fields_required, w)
  ∧ Users.put_user cfg e id body w = (Normal Users.fields_required, w)
  ∧ res_status Users.fields_required = 400.
Proof.
  intros Hbad. apply user_fields_incomplete in Hbad.
  by rewrite users_post_user_run, users_put_user_run, Hbad.
Qed.

(** X11.  Creating a user with an email that a stored user already holds is
    answered 409: no row is added or changed and no user-created event is
    published. *)
Theorem duplicate_email_is_a_conflict e generated body w (n m : string) id (u : Users.user) :
  user_fields body = Some (JStr n, JStr m) →
  db_down e = false →
  store w !! id = Some u →
  Users.u_email u = m →
  id ≠ generated →
  Users.post_user cfg e generated body w
  = (Normal (Response 409 (error_body "Email already exists")),
     logged [DbCreate generated false] w).
Proof.
  intros Hbody Hup Hrow Hmail Hne. rewrite users_post_user_run, Hbody, Hup.
  assert (Users.email_taken (store w) generated m = true) as ->; [|done].
  apply bool_decide_eq_true. by eapply map_Exists_lookup_2.
Qed.

(** X13.  Updating a user id that is not in the table is answered 404: no
    row is added or changed and no user-updated event is published. *)
Theorem update_of_unknown_user_not_found e id body w (n m : string) :
  user_fields body = Some (JStr n, JStr m) →
  db_down e = false →
  store w !! id = None →
  Users.put_user cfg e id body w
  = (Normal (Response 404 (error_body "User not found")), logged [DbUpdate id false] w).
Proof.
  intros Hbody Hup Hnone. by rewrite users_put_user_run, Hbody, Hup, Hnone.
Qed.

Lemma get_user_lookup e (Hup : db_down e = false) id w :
  Users.get_user e id w
  = (Normal match store w !! id with
            | Some u => Response 200 (Users.user_json u)
            | None => Response 404 (error_body "not found")
            end, w).
Proof.
  unfold Users.get_user, Users.prisma_user_findUnique. rewrite Hup.
  run_monad. by destruct (store w !! id).
Qed.

(** X14.  Looking a user up changes nothing.  With the database reachable
    the answer is 200 with the stored user, or 404 when the id is not in
    the table; with the database unreachable the handler, which has no
    [try] around the lookup, ends by a throw and sends no answer. *)
Theorem get_user_answers_or_throws e id w :
  (db_down e = false →
   Users.get_user e id w
   = (Normal match store w !! id with
             | Some u => Response 200 (Users.user_json u)
             | None => Response 404 (error_body "not found")
             end, w))
  ∧ (db_down e = true → Users.get_user e id w = (Throw App.db_unreachable, w)).
Proof.
  unfold Users.get_user, Users.prisma_user_findUnique. split; intros ->.
  - run_monad. by destruct (store w !! id).
  - by run_monad.
Qed.

(** X15.  A user that a creation or an update has just answered with is
    what a lookup of its id returns next: the 201 (or 200) body and the
    following 200 body are the same. *)
Theorem stored_user_is_looked_up e e' generated id body w :
  db_down e' = false →
  (∀ r w',
     Users.post_user cfg e generated body w = (Normal r, w') →
     res_status r = 201 →
     Users.get_user e' generated w' = (Normal (Response 200 (res_body r)), w'))
  ∧ (∀ r w',
       Users.put_user cfg e id body w = (Normal r, w') →
       res_status r = 200 →
       Users.get_user e' id w' = (Normal (Response 200 (res_body r)), w')).
Proof.
  intros Hup.
  pose proof (get_user_lookup e' Hup) as Hget. split.
  - intros r w'. rewrite users_post_user_run.
    destruct (user_fields body) as [[name email]|]; [|by intros [= <- <-]].
    destruct (db_down e); [by intros [= <- <-]|].
    destruct name as [| | |n| |]; try by intros [= <- <-].
    destruct email as [| | |m| |]; try by intros [= <- <-].
    destruct (Users.email_taken _ _ _ || _); [by intros [= <- <-]|].
    intros [= <- <-] _. rewrite Hget. cbn. by rewrite lookup_insert_eq.
  - intros r w'. rewrite users_put_user_run.
    destruct (user_fields body) as [[name email]|]; [|by intros [= <- <-]].
    destruct (db_down e); [by intros [= <- <-]|].
    destruct name as [| | |n| |]; try by intros [= <- <-].
    destruct email as [| | |m| |]; try by intros [= <- <-].
    destruct (store w !! id); [|by intros [= <- <-]].
    destruct (Users.email_taken _ _ _); [by intros [= <- <-]|].
    intros [= <- <-] _. rewrite Hget. cbn. by rewrite lookup_insert_eq.
Qed.

End UsersProperties.

Section RegistryToCache.
(** The configuration of the users service and that of the orders
    service. *)
Context (ucfg cfg : config).

Lemma user_event_is_registry_event (u : Users.user) rk :
  rk = ROUTING_KEY_USER_CREATED cfg ∨ rk = ROUTING_KEY_USER_UPDATED cfg →
  event_of cfg (Message (Serialized (Users.user_json u)) rk)
  = Some (Users.u_id u, Users.user_json u).
Proof.
  intros Hrk. unfold event_of. cbn [routingKey content].
  by rewrite bool_decide_true.
Qed.

(** X12.  What the users service publishes is what the orders service
    caches.  When a creation is answered 201 (an update 200) and the event
    goes out, the one message published after the write carries the
    answered user under the user-created (user-updated) key; if the orders
    service is bound to that key, consuming the message stores exactly the
    answered user in [userCache] under the user's id. *)
Theorem published_user_event_reaches_the_cache e generated id body
    (wu : world (gmap string Users.user)) :
  amqp wu = true →
  publish_throws e = false →
  ROUTING_KEY_USER_CREATED cfg = ROUTING_KEY_USER_CREATED ucfg →
  ROUTING_KEY_USER_UPDATED cfg = ROUTING_KEY_USER_UPDATED ucfg →
  (∀ r wu',
     Users.post_user ucfg e generated body wu = (Normal r, wu') →
     res_status r = 201 →
     let m := Message (JSON_stringify (res_body r)) (ROUTING_KEY_USER_CREATED ucfg) in
     trace wu'
     = trace wu ++ [DbCreate generated true;
                    Publish (EXCHANGE ucfg) (routingKey m) (content m) true]
     ∧ event_of cfg m = Some (generated, res_body r)
     ∧ ∀ w : world (gmap string App.row),
         userCache (deliver cfg (Some m) w) !! KStr generated = Some (res_body r))
  ∧ (∀ r wu',
       Users.put_user ucfg e id body wu = (Normal r, wu') →
       res_status r = 200 →
       let m := Message (JSON_stringify (res_body r)) (ROUTING_KEY_USER_UPDATED ucfg) in
       trace wu'
       = trace wu ++ [DbUpdate id true;
                      Publish (EXCHANGE ucfg) (routingKey m) (content m) true]
       ∧ event_of cfg m = Some (id, res_body r)
       ∧ ∀ w : world (gmap string App.row),
           userCache (deliver cfg (Some m) w) !! KStr id = Some (res_body r)).
Proof.
  intros Hch Hpub Hcreated Hupdated. split.
  - intros r wu'. rewrite users_post_user_run.
    destruct (user_fields body) as [[name email]|]; [|by intros [= <- <-]].
    destruct (db_down e); [by intros [= <- <-]|].
    destruct name as [| | |n| |]; try by intros [= <- <-].
    destruct email as [| | |m0| |]; try by intros [= <- <-].
    destruct (Users.email_taken _ _ _ || _); [by intros [= <- <-]|].
    intros [= <- <-] _ m. subst m. cbn [res_body JSON_stringify routingKey content].
    set (u := Users.User generated n m0 (now e)).
    assert (event_of cfg (Message (Serialized (Users.user_json u))
                            (ROUTING_KEY_USER_CREATED ucfg))
            = Some (generated, Users.user_json u)) as Hev.
    { apply (user_event_is_registry_event u). left. congruence. }
    split; [|split; [exact Hev|]].
    + unfold published. by rewrite Hch, Hpub.
    + intros w. unfold JSON_stringify.
      rewrite (deliver_registry_event cfg _ w _ _ Hev). cbn.
      by rewrite lookup_insert_eq.
  - intros r wu'. rewrite users_put_user_run.
    destruct (user_fields body) as [[name email]|]; [|by intros [= <- <-]].
    destruct (db_down e); [by intros [= <- <-]|].
    destruct name as [| | |n| |]; try by intros [= <- <-].
    destruct email as [| | |m0| |]; try by intros [= <- <-].
    destruct (store wu !! id) as [u0|]; [|by intros [= <- <-]].
    destruct (Users.email_taken _ _ _); [by intros [= <- <-]|].
    intros [= <- <-] _ m. subst m. cbn [res_body JSON_stringify routingKey content].
    set (u := Users.User id n m0 (now e)).
    assert (event_of cfg (Message (Serialized (Users.user_json u))
                            (ROUTING_KEY_USER_UPDATED ucfg))
            = Some (id, Users.user_json u)) as Hev.
    { apply (user_event_is_registry_event u). right. congruence. }
    split; [|split; [exact Hev|]].
    + unfold published. by rewrite Hch, Hpub.
    + intros w. unfold JSON_stringify.
      rewrite (deliver_registry_event cfg _ w _ _ Hev). cbn.
      by rewrite lookup_insert_eq.
Qed.

End RegistryToCache.

(** X10 at a body without a name. *)
Lemma users_reject_incomplete_bodies_witness :
  Users.post_user default_config calm "u1" nameless_request users_initial
  = (Normal Users.fields_required, users_initial)
  ∧ Users.put_user default_config calm "u1" nameless_request users_initial
    = (Normal Users.fields_required, users_initial)
  ∧ res_status Users.fields_required = 400.
Proof.
  apply (users_reject_incomplete_bodies default_config calm "u1" "u1" nameless_request
           users_initial).
  left. reflexivity.
Defined.

(** X11 at a second creation with the email of the first. *)
Lemma duplicate_email_is_a_conflict_witness :
  Users.post_user default_config calm "u2" ana_again_request users_with_ana
  = (Normal (Response 409 (error_body "Email already exists")),
     logged [DbCreate "u2" false] users_with_ana).
Proof.
  apply (duplicate_email_is_a_conflict default_config calm "u2" ana_again_request
           users_with_ana "Ana Lima" "ana@example.com" "u1" ana_user);
    [reflexivity|reflexivity|vm_compute; reflexivity|reflexivity|discriminate].
Defined.

(** X13 at an update of a user nobody created. *)
Lemma update_of_unknown_user_not_found_witness :
  Users.put_user default_config calm "u7" ana_request users_with_ana
  = (Normal (Response 404 (error_body "User not found")),
     logged [DbUpdate "u7" false] users_with_ana).
Proof.
  apply (update_of_unknown_user_not_found default_config calm "u7" ana_request
           users_with_ana "Ana" "ana@example.com");
    [reflexivity|reflexivity|vm_compute; reflexivity].
Defined.

(** X15 at the creation of Ana. *)
Lemma stored_user_is_looked_up_witness :
  Users.get_user calm "u1" users_with_ana
  = (Normal (Response 200 (Users.user_json ana_user)), users_with_ana).
Proof.
  destruct (stored_user_is_looked_up default_config calm calm "u1" "u1" ana_request
              users_initial eq_refl) as [Hpost _].
  apply (Hpost (Response 201 (Users.user_json ana_user)) users_with_ana);
    vm_compute; reflexivity.
Defined.

(** X12 at the creation of Ana, consumed by an orders service at
    start-up. *)
Lemma published_user_event_reaches_the_cache_witness :
  userCache
    (deliver default_config
       (Some (Message (Serialized (Users.user_json ana_user)) "user.created")) App.initial)
    !! KStr "u1" = Some (Users.user_json ana_user).
Proof.
  destruct (published_user_event_reaches_the_cache default_config default_config calm
              "u1" "u1" ana_request users_initial eq_refl eq_refl eq_refl eq_refl)
    as [Hpost _].
  destruct (Hpost (Response 201 (Users.user_json ana_user)) users_with_ana)
    as (_ & _ & Hcache); [vm_compute; reflexivity|reflexivity|].
  apply Hcache.
Defined.

(** X14 at a lookup while the database cannot be reached. *)
Lemma get_user_answers_or_throws_witness :
  Users.get_user db_outage "u1" users_with_ana = (Throw App.db_unreachable, users_with_ana).
Proof.
  apply (proj2 (get_user_answers_or_throws db_outage "u1" users_with_ana)). reflexivity.
Defined.

(** ** Listing the orders *)

Section ListingProperties.
Context (cfg : config).
Implicit Types (w : world (gmap string App.row)) (e : env).

#[local] Instance newest_first_total : Total Listing.newest_first.
Proof.
  intros r1 r2. unfold Listing.newest_first.
  destruct (String.leb_total (App.r_createdAt r1) (App.r_createdAt r2)); auto.
Qed.

Lemma get_orders_run e w :
  Listing.get_orders e w
  = (Normal
       (if db_down e then Response 500 (error_body "Failed to list orders")
        else
          match Listing.map_rows
                  (merge_sort Listing.newest_first (map_to_list (store w)).*2) with
          | Normal os => Response 200 (JArr os)
          | Throw _ => Response 500 (error_body "Failed to list orders")
          end), w).
Proof.
  unfold Listing.get_orders, Listing.prisma_order_findMany.
  destruct (db_down e); [by run_monad|].
  unfold try_catch, bind, gets, lift, ret.
  by destruct (Listing.map_rows _).
Qed.

Lemma map_rows_tidy (rows : list App.row) :
  Forall (fun r => ∃ j, App.r_items r = Serialized j) rows →
  ∃ os, Listing.map_rows rows = Normal os
        ∧ Forall2 (fun r o => Listing.parse_items r = Normal o) rows os.
Proof.
  induction 1 as [|r rows [j Hj] _ (os & Hos & Hall)].
  - exists []. split; [done|constructor].
  - exists (App.order_json r j :: os).
    assert (Listing.parse_items r = Normal (App.order_json r j)) as Hr.
    { unfold Listing.parse_items. by rewrite Hj. }
    cbn [Listing.map_rows]. rewrite Hr, Hos. split; [done|by constructor].
Qed.

Lemma map_rows_malformed (rows : list App.row) (r : App.row) raw :
  r ∈ rows → App.r_items r = Malformed raw → ∃ err, Listing.map_rows rows = Throw err.
Proof.
  intros Hin Hraw. induction Hin as [r rows|r r0 rows _ IH]; cbn [Listing.map_rows].
  - unfold Listing.parse_items. rewrite Hraw. cbn. eauto.
  - destruct (IH Hraw) as [err Herr].
    destruct (Listing.parse_items r0); [|eauto]. rewrite Herr. eauto.
Qed.

Lemma stored_rows_listed (tbl : gmap string App.row) (r : App.row) :
  r ∈ merge_sort Listing.newest_first (map_to_list tbl).*2 ↔ ∃ id, tbl !! id = Some r.
Proof.
  rewrite merge_sort_Permutation, list_elem_of_fmap. split.
  - intros [[id r'] [-> Hin]]. exists id. by apply elem_of_map_to_list.
  - intros [id Hid]. exists (id, r). split; [done|]. by apply elem_of_map_to_list.
Qed.

Lemma get_orders_lists_rows e w :
  tidy (store w) →
  db_down e = false →
  ∃ rows os,
    Listing.get_orders e w = (Normal (Response 200 (JArr os)), w)
    ∧ Forall2 (fun r o => Listing.parse_items r = Normal o) rows os
    ∧ (∀ r, r ∈ rows ↔ ∃ id, store w !! id = Some r)
    ∧ length os = size (store w)
    ∧ Sorted Listing.newest_first rows.
Proof.
  intros Htidy Hup.
  set (rows := merge_sort Listing.newest_first (map_to_list (store w)).*2).
  destruct (map_rows_tidy rows) as (os & Hos & Hall).
  { apply Forall_forall. intros r Hr. apply stored_rows_listed in Hr as [id Hid].
    by eapply Htidy. }
  exists rows, os. rewrite get_orders_run, Hup. fold rows. rewrite Hos.
  split; [done|]. split; [done|]. split; [intros r; apply stored_rows_listed|].
  split; [|apply (Sorted_merge_sort _)].
  rewrite <- (Forall2_length _ _ _ Hall). unfold rows.
  by rewrite merge_sort_Permutation, length_fmap, length_map_to_list.
Qed.

(** X16.  In every state the service reaches, with the database
    reachable, listing the orders changes nothing and answers 200 with
    one entry for each stored order and no other, each with its items
    parsed back to a value, in an order in which no entry is older than
    the next. *)
Theorem listing_is_complete_and_newest_first e w :
  App.reachable cfg w →
  db_down e = false →
  ∃ rows os,
    Listing.get_orders e w = (Normal (Response 200 (JArr os)), w)
    ∧ Forall2 (fun r o => Listing.parse_items r = Normal o) rows os
    ∧ (∀ r, r ∈ rows ↔ ∃ id, store w !! id = Some r)
    ∧ length os = size (store w)
    ∧ Sorted Listing.newest_first rows.
Proof.
  intros Hreach Hup. apply get_orders_lists_rows; [|exact Hup].
  by eapply app_reachable_tidy.
Qed.

(** X17.  An order is listed as it was answered: after a creation
    answered 201, or a cancellation answered 200, the next listing (with
    the database reachable) answers 200 and has the answered order among
    its entries. *)
Theorem answered_order_is_listed e e' w :
  App.reachable cfg w →
  db_down e' = false →
  (∀ body r w',
     App.post_order cfg e body w = (Normal r, w') →
     res_status r = 201 →
     ∃ os, Listing.get_orders e' w' = (Normal (Response 200 (JArr os)), w')
           ∧ res_body r ∈ os)
  ∧ (∀ orderId r w',
       App.post_cancel cfg e orderId w = (Normal r, w') →
       res_status r = 200 →
       ∃ os, Listing.get_orders e' w' = (Normal (Response 200 (JArr os)), w')
             ∧ res_body r ∈ os).
Proof.
  intros Hreach Hup.
  assert (∀ i (row : App.row) id j,
            store (App.step cfg i w) !! id = Some row →
            App.r_items row = Serialized j →
            ∃ os, Listing.get_orders e' (App.step cfg i w)
                  = (Normal (Response 200 (JArr os)), App.step cfg i w)
                  ∧ App.order_json row j ∈ os) as Hlisted.
  { intros i row id j Hrow Hj.
    destruct (get_orders_lists_rows e' (App.step cfg i w))
      as (rows & os & Hget & Hall & Hin & _);
      [by apply (app_reachable_tidy cfg), App.reachable_step|done|].
    exists os. split; [done|].
    assert (row ∈ rows) as Hmem by (apply Hin; eauto).
    apply list_elem_of_lookup in Hmem as [k Hk].
    destruct (Forall2_lookup_l _ _ _ _ _ Hall Hk) as (o & Ho & Hparse).
    unfold Listing.parse_items in Hparse. rewrite Hj in Hparse. cbn in Hparse.
    injection Hparse as <-. by eapply list_elem_of_lookup_2. }
  split.
  - intros body r w' Hrun Hok.
    pose proof (Hlisted (App.Create e body)) as Hl. cbn [App.step] in Hl.
    rewrite Hrun in Hl. cbn [snd] in Hl. revert Hrun. rewrite app_post_order_run.
    destruct (checked body) as [[[u its] t]|]; [|by intros [= <- <-]]. cbn zeta.
    destruct (match fire_outcome e with Resolved => true | Rejected _ => cached u w end);
      [|by intros [= <- <-]].
    rewrite app_create_order_run. cbn zeta.
    destruct (db_down e || _); [by intros [= <- <-]|].
    intros [= <- <-]. cbn [res_body].
    apply (Hl _ ("o_" +:+ nanoid e)); [|done]. cbn. by rewrite lookup_insert_eq.
  - intros orderId r w' Hrun Hok.
    pose proof (Hlisted (App.Cancel e orderId)) as Hl. cbn [App.step] in Hl.
    rewrite Hrun in Hl. cbn [snd] in Hl. revert Hrun. rewrite app_post_cancel_run.
    destruct (db_down e); [by intros [= <- <-]|].
    destruct (store w !! orderId) as [row|]; [|by intros [= <- <-]]. cbn zeta.
    destruct (App.r_items row) as [j|raw] eqn:Hj; [|by intros [= <- <-]].
    intros [= <- <-]. cbn [res_body].
    apply (Hl _ orderId); [|done]. cbn. by rewrite lookup_insert_eq.
Qed.

(** X18.  The listing is all or nothing: when the database cannot be
    reached, or when the items of any one stored row are not JSON text,
    the answer is 500 and no order is listed. *)
Theorem one_unreadable_row_fails_the_listing e w :
  (db_down e = true →
   Listing.get_orders e w = (Normal (Response 500 (error_body "Failed to list orders")), w))
  ∧ (∀ id (r : App.row) raw,
       store w !! id = Some r →
       App.r_items r = Malformed raw →
       Listing.get_orders e w
       = (Normal (Response 500 (error_body "Failed to list orders")), w)).
Proof.
  split.
  - intros Hdown. by rewrite get_orders_run, Hdown.
  - intros id r raw Hrow Hraw. rewrite get_orders_run.
    destruct (db_down e); [done|].
    destruct (map_rows_malformed
                (merge_sort Listing.newest_first (map_to_list (store w)).*2) r raw)
      as [err ->]; [|done..].
    apply stored_rows_listed. eauto.
Qed.

End ListingProperties.

(** ** The first orders service: validation by a plain fetch *)

Section LegacyProperties.
Context (cfg : config).
Implicit Types (w : world (gmap string Index.order)) (e : env).

Lemma legacy_validate_run live (u : json) w :
  Legacy.validate live u w
  = (Normal
       match live with
       | Normal resp => if Net.ok resp then Admit else Reject 400 Legacy.invalid_user
       | Throw _ => if cached u w then Admit else Reject 503 user_unknown
       end, w).
Proof.
  unfold Legacy.validate, try_catch, bind, lift, ret, userCache_has, cached.
  destruct live as [resp|err]; [by destruct (Net.ok resp)|].
  destruct (prim_key (Some u)) as [k|]; [|done].
  by destruct (bool_decide (is_Some (userCache w !! k))).
Qed.

Lemma legacy_post_order_run e live body w :
  Legacy.post_order cfg e live body w
  = match checked body with
    | None => (Normal bad_request, w)
    | Some (u, its, t) =>
        match live with
        | Normal resp =>
            if Net.ok resp then Index.create_order cfg e u its t w
            else (Normal (Response 400 (error_body Legacy.invalid_user)), w)
        | Throw _ =>
            if cached u w then Index.create_order cfg e u its t w
            else (Normal (Response 503 (error_body user_unknown)), w)
        end
    end.
Proof.
  unfold Legacy.post_order. unfold bind at 1. rewrite read_body_checked.
  destruct (checked body) as [[[u its] t]|]; [|done].
  unfold bind. rewrite legacy_validate_run.
  destruct live as [resp|err]; [by destruct (Net.ok resp)|by destruct (cached u w)].
Qed.

(** X19.  In the first orders service a users service that answers, but
    not with a success status, settles the matter: the order is refused
    with 400 and nothing is stored or published, whether the cache knows
    the user or not. *)
Theorem legacy_refused_user_is_invalid e resp body u its t w :
  checked body = Some (u, its, t) →
  Net.ok resp = false →
  Legacy.post_order cfg e (Normal resp) body w
  = (Normal (Response 400 (error_body Legacy.invalid_user)), w).
Proof. intros Hbody Hko. by rewrite legacy_post_order_run, Hbody, Hko. Qed.

(** X20.  In the first orders service the cache is consulted only when
    the fetch itself fails: a user the cache does not hold is answered 503
    with nothing stored or published, a user it holds gets the order
    created, stored under its identifier and answered 201. *)
Theorem legacy_failed_fetch_falls_back_to_cache e err body u its t w :
  checked body = Some (u, its, t) →
  (cached u w = false →
   Legacy.post_order cfg e (Throw err) body w
   = (Normal (Response 503 (error_body user_unknown)), w))
  ∧ (cached u w = true →
     let o := Index.Order ("o_" +:+ nanoid e) u its t Created (now e) in
     ∃ w', Legacy.post_order cfg e (Throw err) body w
           = (Normal (Response 201 (Index.order_json o)), w')
           ∧ store w' !! ("o_" +:+ nanoid e) = Some o
           ∧ userCache w' = userCache w).
Proof.
  intros Hbody. rewrite legacy_post_order_run, Hbody. split; intros ->; [done|].
  rewrite index_create_order_run. cbn zeta. eexists. split; [reflexivity|].
  cbn. by rewrite lookup_insert_eq.
Qed.

End LegacyProperties.

(** X19 for a user the cache holds. *)
Lemma legacy_refused_user_is_invalid_witness :
  cached (JStr "u1") index_knows_u1 = true
  ∧ Legacy.post_order default_config calm refused sample_request index_knows_u1
    = (Normal (Response 400 (error_body Legacy.invalid_user)), index_knows_u1).
Proof.
  split; [reflexivity|].
  apply (legacy_refused_user_is_invalid default_config calm (Net.HttpResponse false 404)
           sample_request (JStr "u1") sample_items 150); reflexivity.
Defined.

(** X20 for a user the cache does not hold. *)
Lemma legacy_failed_fetch_falls_back_to_cache_witness :
  Legacy.post_order default_config calm aborted unknown_user_request index_knows_u1
  = (Normal (Response 503 (error_body user_unknown)), index_knows_u1).
Proof.
  apply (proj1 (legacy_failed_fetch_falls_back_to_cache default_config calm
                  (JsError None "The operation was aborted") unknown_user_request
                  (JStr "u9") sample_items 150 index_knows_u1 eq_refl)).
  reflexivity.
Defined.

(** ** What every delivery and every sequence of requests keeps *)

Section Settlement.
Context {Store : Type} (cfg : config).
Implicit Types (w : world Store) (m : message).

Lemma consume_settles m w :
  ∃ c n s,
    consume cfg (Some m) w = (Normal (), World c n (amqp w) (store w) (trace w ++ [s]))
    ∧ settles m s
    ∧ (∀ k, is_Some (userCache w !! k) → is_Some (c !! k)).
Proof.
  unfold consume, settles. unfold try_catch, bind, lift, emit, ret, userCache_set.
  destruct (JSON_parse (content m)) as [user|err].
  2: { eexists _, _, _. split; [reflexivity|]. split; [by right|done]. }
  destruct (bool_decide _).
  2: { eexists _, _, _. split; [reflexivity|]. split; [by left|done]. }
  destruct (get_prop user "id") as [id|err].
  2: { eexists _, _, _. split; [reflexivity|]. split; [by right|done]. }
  destruct (prim_key id) as [pk|]; eexists _, _, _.
  all: split; [reflexivity|]; split; [by left|]; cbn.
  all: intros k Hk; apply lookup_insert_is_Some'; by right.
Qed.


End Settlement.

Section Invariants.
Context (cfg : config).
Implicit Types (w : world (gmap string App.row)) (e : env) (r : App.row).

Lemma same_order_refl r : same_order r r.
Proof. by repeat split. Qed.

Lemma same_order_trans r1 r2 r3 : same_order r1 r2 → same_order r2 r3 → same_order r1 r3.
Proof.
  intros (? & ? & ? & ? & ?) (? & ? & ? & ? & ?). repeat split; congruence.
Qed.

Lemma same_order_cancelled e r : same_order r (cancelled_row e r).
Proof. by repeat split. Qed.

Lemma app_step_same_order i w id r :
  store w !! id = Some r →
  ∃ r', store (App.step cfg i w) !! id = Some r' ∧ same_order r r'.
Proof.
  intros Hrow. destruct i as [e body|e orderId|msg|]; cbn [App.step].
  - exists r. split; [by apply status_step_app_create|apply same_order_refl].
  - rewrite app_post_cancel_run.
    destruct (db_down e); [exists r; split; [done|apply same_order_refl]|].
    destruct (store w !! orderId) as [r0|] eqn:Hid;
      [|exists r; split; [done|apply same_order_refl]].
    assert (∃ r', <[orderId := cancelled_row e r0]> (store w) !! id = Some r'
                  ∧ same_order r r') as Hins.
    { destruct (decide (orderId = id)) as [->|Hne].
      - rewrite lookup_insert_eq. eexists. split; [done|].
        assert (r0 = r) as -> by congruence. apply same_order_cancelled.
      - rewrite lookup_insert_ne by done. exists r. split; [done|apply same_order_refl]. }
    cbn zeta. by destruct (App.r_items r0).
  - exists r. destruct (consume_frame cfg msg w) as [-> _].
    split; [done|apply same_order_refl].
  - exists r. split; [done|apply same_order_refl].
Qed.

(** X21.  No sequence of creations, cancellations, deliveries and
    connections removes a stored order or changes its identifier, its
    user, its items, its total or its time of creation. *)
Theorem stored_order_keeps_its_data inputs w id r :
  store w !! id = Some r →
  ∃ r', store (app_run cfg inputs w) !! id = Some r' ∧ same_order r r'.
Proof.
  revert w r. induction inputs as [|i inputs IH]; intros w r Hrow.
  - exists r. split; [done|apply same_order_refl].
  - destruct (app_step_same_order i w id r Hrow) as (r1 & Hr1 & Hsame1).
    destruct (IH _ _ Hr1) as (r2 & Hr2 & Hsame2).
    exists r2. split; [exact Hr2|]. by eapply same_order_trans.
Qed.

(** X22.  In every state the service reaches, an order is stored under
    its own identifier and its items are held as the text of a JSON
    array. *)
Theorem order_is_stored_under_its_id w id r :
  App.reachable cfg w →
  store w !! id = Some r →
  App.r_id r = id ∧ ∃ its, App.r_items r = Serialized (JArr its).
Proof.
  intros Hreach. revert id r. induction Hreach as [|i w _ IH]; intros id r.
  { cbn. by rewrite lookup_empty. }
  destruct i as [e body|e orderId|msg|]; cbn [App.step].
  - rewrite app_post_order_run.
    destruct (checked body) as [[[u its] t]|]; [|apply IH]. cbn zeta.
    destruct (match fire_outcome e with Resolved => true | Rejected _ => cached u w end);
      [|apply IH].
    rewrite app_create_order_run. cbn zeta.
    destruct (db_down e || _); [apply IH|]. cbn.
    destruct (decide ("o_" +:+ nanoid e = id)) as [<-|Hne].
    + rewrite lookup_insert_eq. intros [= <-]. split; [done|]. by exists its.
    + rewrite lookup_insert_ne by done. apply IH.
  - rewrite app_post_cancel_run. destruct (db_down e); [apply IH|].
    destruct (store w !! orderId) as [r0|] eqn:Hid; [|apply IH].
    assert (<[orderId := cancelled_row e r0]> (store w) !! id = Some r →
            App.r_id r = id ∧ ∃ its, App.r_items r = Serialized (JArr its)) as Hins.
    { destruct (decide (orderId = id)) as [->|Hne].
      - rewrite lookup_insert_eq. intros [= <-]. apply (IH id r0 Hid).
      - rewrite lookup_insert_ne by done. apply IH. }
    cbn zeta. by destruct (App.r_items r0).
  - destruct (consume_frame cfg msg w) as [-> _]. apply IH.
  - apply IH.
Qed.

Lemma published_shape e w rk payload :
  rk = ORDER_CREATED cfg ∨ rk = ORDER_CANCELLED cfg →
  Forall (order_event_shape cfg) (published cfg e w rk payload)
  ∧ (amqp w = false → published cfg e w rk payload = []).
Proof.
  intros Hrk. unfold published.
  destruct (amqp w), (publish_throws e); cbn; (split; [|done]); try by constructor.
Qed.

Lemma app_step_trace i w :
  ∃ new,
    trace (App.step cfg i w) = trace w ++ new
    ∧ Forall (order_event_shape cfg) new
    ∧ (amqp w = false → Forall (fun f => is_publish f = false) new)
    ∧ (amqp w = true → amqp (App.step cfg i w) = true).
Proof.
  destruct i as [e body|e orderId|msg|]; cbn [App.step].
  - rewrite app_post_order_run.
    destruct (checked body) as [[[u its] t]|].
    2: { exists []. by rewrite app_nil_r. }
    cbn zeta.
    destruct (match fire_outcome e with Resolved => true | Rejected _ => cached u w end).
    2: { exists [Fire u]. repeat split; by repeat constructor. }
    rewrite app_create_order_run. cbn zeta.
    destruct (db_down e || _).
    { exists [Fire u; DbCreate ("o_" +:+ nanoid e) false]. cbn. rewrite <- app_assoc.
      repeat split; by repeat constructor. }
    match goal with
    | |- context [published cfg e ?w0 ?rk ?p] =>
        destruct (published_shape e w0 rk p) as [Hshape Hdown]; [by left|];
        exists (Fire u :: DbCreate ("o_" +:+ nanoid e) true :: published cfg e w0 rk p)
    end.
    cbn. rewrite <- app_assoc. split; [done|]. split; [by repeat constructor|].
    split; [|done]. intros Hoff. rewrite (Hdown Hoff). by repeat constructor.
  - rewrite app_post_cancel_run.
    destruct (db_down e).
    { exists [DbUpdate orderId false]. repeat split; by repeat constructor. }
    destruct (store w !! orderId) as [r0|].
    2: { exists [DbUpdate orderId false]. repeat split; by repeat constructor. }
    cbn zeta. destruct (App.r_items r0) as [j|raw].
    2: { exists [DbUpdate orderId true]. repeat split; by repeat constructor. }
    destruct (published_shape e w (ORDER_CANCELLED cfg) (cancelled_event orderId))
      as [Hshape Hdown]; [by right|].
    exists (DbUpdate orderId true
            :: published cfg e w (ORDER_CANCELLED cfg) (cancelled_event orderId)).
    cbn. split; [done|]. split; [by repeat constructor|].
    split; [|done]. intros Hoff. rewrite (Hdown Hoff). by repeat constructor.
  - destruct msg as [m|].
    2: { exists []. by rewrite app_nil_r. }
    destruct (consume_settles cfg m w) as (c & n & s & -> & [->| ->] & _); cbn.
    + exists [Ack m]. repeat split; by repeat constructor.
    + exists [Nack m false false]. repeat split; by repeat constructor.
  - exists []. cbn. by rewrite app_nil_r.
Qed.

(** X23.  In every state the service reaches, every message it has put
    on the bus is persistent, on the configured exchange and under the
    order-created or the order-cancelled routing key; and as long as the
    channel has not been connected it has published nothing. *)
Theorem only_order_events_are_published w :
  App.reachable cfg w →
  Forall (order_event_shape cfg) (trace w)
  ∧ (amqp w = false → Forall (fun f => is_publish f = false) (trace w)).
Proof.
  induction 1 as [|i w _ [IHshape IHoff]]; [by split; [constructor|]|].
  destruct (app_step_trace i w) as (new & -> & Hshape & Hoff & Hon).
  split; [by apply Forall_app|].
  intros Hstill. destruct (amqp w) eqn:Hamqp.
  - rewrite Hon in Hstill; done.
  - apply Forall_app. auto.
Qed.

Lemma app_step_cache i w k :
  is_Some (userCache w !! k) → is_Some (userCache (App.step cfg i w) !! k).
Proof.
  intros Hk. destruct i as [e body|e orderId|msg|]; cbn [App.step].
  - rewrite app_post_order_run.
    destruct (checked body) as [[[u its] t]|]; [|done]. cbn zeta.
    destruct (match fire_outcome e with Resolved => true | Rejected _ => cached u w end);
      [|done].
    rewrite app_create_order_run. cbn zeta. by destruct (db_down e || _).
  - rewrite app_post_cancel_run. destruct (db_down e); [done|].
    destruct (store w !! orderId) as [r0|]; [|done].
    cbn zeta. by destruct (App.r_items r0).
  - destruct msg as [m|]; [|done].
    destruct (consume_settles cfg m w) as (c & n & s & -> & _ & Hc). by apply Hc.
  - done.
Qed.

(** X25.  The cache never forgets: a user it holds is still held after
    any sequence of creations, cancellations, deliveries and connections,
    so an order for that user is still admitted when the live check
    fails. *)
Theorem cached_user_stays_admitted inputs w e (u : json) err :
  cached u w = true →
  fire_outcome e = Rejected err →
  cached u (app_run cfg inputs w) = true
  ∧ (validate e u (app_run cfg inputs w)).1 = Normal Admit.
Proof.
  intros Hu Hfire.
  assert (cached u (app_run cfg inputs w) = true) as Hstill.
  { revert w Hu. induction inputs as [|i inputs IH]; intros w Hu; [done|].
    apply IH. revert Hu. unfold cached.
    destruct (prim_key (Some u)) as [k|]; [|done].
    rewrite !bool_decide_eq_true. apply app_step_cache. }
  split; [done|]. by rewrite (validate_rejected e u _ err Hfire), Hstill.
Qed.

(** X26.  An order that was created can be cancelled: after a creation
    answered 201, a cancellation of the identifier the answer carries,
    with the database reachable, is answered 200 with the same order in
    status cancelled, and that is the row the table then holds. *)
Theorem created_order_can_be_cancelled e e' body (u : json) its t w res w' :
  checked body = Some (u, its, t) →
  App.post_order cfg e body w = (Normal res, w') →
  res_status res = 201 →
  db_down e' = false →
  res = Response 201 (App.order_json (new_row e u its t) (JArr its))
  ∧ ∃ w'',
      App.post_cancel cfg e' ("o_" +:+ nanoid e) w'
      = (Normal (Response 200
                   (App.order_json (cancelled_row e' (new_row e u its t)) (JArr its))), w'')
      ∧ store w'' !! ("o_" +:+ nanoid e) = Some (cancelled_row e' (new_row e u its t)).
Proof.
  intros Hbody Hrun Hok Hup. revert Hrun. rewrite app_post_order_run, Hbody. cbn zeta.
  destruct (match fire_outcome e with Resolved => true | Rejected _ => cached u w end).
  2: { intros [= <- <-]. done. }
  rewrite app_create_order_run. cbn zeta.
  destruct (db_down e || _).
  { intros [= <- <-]. done. }
  intros [= <- <-]. split; [done|].
  rewrite app_post_cancel_run, Hup. cbn [store logged stored].
  rewrite lookup_insert_eq. cbn zeta. cbn [App.r_items new_row].
  eexists. split; [reflexivity|]. cbn. by rewrite lookup_insert_eq.
Qed.

End Invariants.

Section Collision.
Context (cfg : config).

(** X27.  The in-memory variant does not look whether the identifier it
    drew is in use: when it is, the admitted creation is answered 201 like
    any other and the order that was stored under that identifier is
    replaced by the new one. *)
Theorem index_id_collision_replaces_the_order e body (u : json) its t
    (w : world (gmap string Index.order)) (o : Index.order) :
  checked body = Some (u, its, t) →
  fire_outcome e = Resolved →
  store w !! ("o_" +:+ nanoid e) = Some o →
  let o' := Index.Order ("o_" +:+ nanoid e) u its t Created (now e) in
  (Index.post_order cfg e body w).1 = Normal (Response 201 (Index.order_json o'))
  ∧ store (Index.post_order cfg e body w).2 !! ("o_" +:+ nanoid e) = Some o'
  ∧ size (store (Index.post_order cfg e body w).2) = size (store w).
Proof.
  intros Hbody Hfire Hused o'. rewrite index_post_order_run, Hbody, Hfire. cbn zeta.
  rewrite index_create_order_run. cbn. split; [done|].
  split; [by rewrite lookup_insert_eq|].
  rewrite <- (insert_delete_id (store w) _ _ Hused) at 2.
  rewrite <- (insert_delete_eq (store w)).
  by rewrite !map_size_insert_None by apply lookup_delete_eq.
Qed.

End Collision.

(** X16 at the table of two orders created a day apart. *)
Lemma listing_is_complete_and_newest_first_witness :
  ∃ rows os,
    Listing.get_orders calm app_two_orders = (Normal (Response 200 (JArr os)), app_two_orders)
    ∧ Forall2 (fun r o => Listing.parse_items r = Normal o) rows os
    ∧ (∀ r, r ∈ rows ↔ ∃ id, store app_two_orders !! id = Some r)
    ∧ length os = size (store app_two_orders)
    ∧ Sorted Listing.newest_first rows.
Proof.
  apply (listing_is_complete_and_newest_first default_config calm app_two_orders).
  - repeat apply App.reachable_step. apply App.reachable_initial.
  - reflexivity.
Defined.

(** X17 at the creation of the second order. *)
Lemma answered_order_is_listed_witness :
  ∃ os,
    Listing.get_orders calm app_two_orders = (Normal (Response 200 (JArr os)), app_two_orders)
    ∧ App.order_json (new_row next_day (JStr "u1") sample_items 150) (JArr sample_items) ∈ os.
Proof.
  destruct (answered_order_is_listed default_config next_day calm app_one_order)
    as [Hcreate _].
  - repeat apply App.reachable_step. apply App.reachable_initial.
  - reflexivity.
  - apply (Hcreate sample_request
             (Response 201
                (App.order_json (new_row next_day (JStr "u1") sample_items 150)
                   (JArr sample_items)))
             app_two_orders); vm_compute; reflexivity.
Defined.

(** X18 at a table with one unreadable row. *)
Lemma one_unreadable_row_fails_the_listing_witness :
  Listing.get_orders calm app_unreadable_row
  = (Normal (Response 500 (error_body "Failed to list orders")), app_unreadable_row).
Proof.
  apply (proj2 (one_unreadable_row_fails_the_listing calm app_unreadable_row)
           "o_x" unreadable_row "{"); reflexivity.
Defined.

(** X21 at an order that is cancelled and followed by another creation. *)
Lemma stored_order_keeps_its_data_witness :
  ∃ r',
    store (app_run default_config
             [App.Cancel next_day "o_abc123"; App.Create next_day sample_request]
             app_one_order) !! "o_abc123" = Some r'
    ∧ same_order (new_row calm (JStr "u1") sample_items 150) r'.
Proof.
  apply (stored_order_keeps_its_data default_config
           [App.Cancel next_day "o_abc123"; App.Create next_day sample_request]
           app_one_order "o_abc123" (new_row calm (JStr "u1") sample_items 150)).
  vm_compute. reflexivity.
Defined.

(** X22 at an order that was created and cancelled. *)
Lemma order_is_stored_under_its_id_witness :
  App.r_id (cancelled_row calm (new_row calm (JStr "u1") sample_items 150)) = "o_abc123"
  ∧ ∃ its,
      App.r_items (cancelled_row calm (new_row calm (JStr "u1") sample_items 150))
      = Serialized (JArr its).
Proof.
  apply (order_is_stored_under_its_id default_config app_cancelled_once).
  - repeat apply App.reachable_step. apply App.reachable_initial.
  - vm_compute. reflexivity.
Defined.

(** X23 after a creation and a cancellation with the channel up. *)
Lemma only_order_events_are_published_witness :
  Forall (order_event_shape default_config) (trace app_cancelled_once)
  ∧ (amqp app_cancelled_once = false →
     Forall (fun f => is_publish f = false) (trace app_cancelled_once)).
Proof.
  apply (only_order_events_are_published default_config app_cancelled_once).
  repeat apply App.reachable_step. apply App.reachable_initial.
Defined.

(** X25 for user u1, a creation during an outage and a cancellation
    later. *)
Lemma cached_user_stays_admitted_witness :
  cached (JStr "u1")
    (app_run default_config
       [App.Create outage sample_request; App.Cancel calm "o_abc123"] app_knows_u1) = true
  ∧ (validate outage (JStr "u1")
       (app_run default_config
          [App.Create outage sample_request; App.Cancel calm "o_abc123"] app_knows_u1)).1
    = Normal Admit.
Proof.
  apply (cached_user_stays_admitted default_config
           [App.Create outage sample_request; App.Cancel calm "o_abc123"] app_knows_u1
           outage (JStr "u1") (JsError None CIRCUIT_OPEN)); reflexivity.
Defined.

(** X26 at an order created one day and cancelled the next. *)
Lemma created_order_can_be_cancelled_witness :
  Response 201 (App.order_json (new_row calm (JStr "u1") sample_items 150) (JArr sample_items))
  = Response 201 (App.order_json (new_row calm (JStr "u1") sample_items 150) (JArr sample_items))
  ∧ ∃ w'',
      App.post_cancel default_config next_day "o_abc123" app_one_order
      = (Normal (Response 200
                   (App.order_json
                      (cancelled_row next_day (new_row calm (JStr "u1") sample_items 150))
                      (JArr sample_items))), w'')
      ∧ store w'' !! "o_abc123"
        = Some (cancelled_row next_day (new_row calm (JStr "u1") sample_items 150)).
Proof.
  apply (created_order_can_be_cancelled default_config calm next_day sample_request
           (JStr "u1") sample_items 150 (App.step default_config App.Connect App.initial)
           (Response 201
              (App.order_json (new_row calm (JStr "u1") sample_items 150) (JArr sample_items)))
           app_one_order); vm_compute; reflexivity.
Defined.

(** X27 at a second creation that draws the identifier of the first. *)
Lemma index_id_collision_replaces_the_order_witness :
  (Index.post_order default_config calm negative_total_request index_one_order).1
  = Normal (Response 201
              (Index.order_json (Index.Order "o_abc123" (JStr "u1") [] (-5) Created timestamp)))
  ∧ store (Index.post_order default_config calm negative_total_request index_one_order).2
      !! "o_abc123"
    = Some (Index.Order "o_abc123" (JStr "u1") [] (-5) Created timestamp)
  ∧ size (store (Index.post_order default_config calm negative_total_request
                   index_one_order).2)
    = size (store index_one_order).
Proof.
  apply (index_id_collision_replaces_the_order default_config calm negative_total_request
           (JStr "u1") [] (-5) index_one_order
           (Index.Order "o_abc123" (JStr "u1") sample_items 150 Created timestamp));
    vm_compute; reflexivity.
Defined.
